(** * A task list kept in a JSON file: embedding of [app.py]

    The program keeps a list of task dictionaries in memory, rewrites the
    file [tasks.json] after every change and reads it back at start-up.
    This development embeds the functions of [app.py] that own that list
    ([create_task], [load_tasks], [save_tasks], [toggle_task_completion],
    [delete_task], [edit_task], [sort_tasks], [get_priority_style]) together
    with the three handlers written inline in the script (add, clear
    completed, import) and proves properties of them.

    Conventions of the embedding.
    - A task is a Python [dict] with string keys: a [gmap string value].
      Field values are the JSON scalars; a field that holds a nested array
      or object is never inspected by the program and is not modelled.
    - JSON numbers are exact integers [Z]. The [id] of a task is the float
      [datetime.now().timestamp()]; the program only compares it with [==]
      and writes it to the file, so it is kept as a count of microseconds.
    - A raised exception is a value [Raise e]. Every function below raises
      before it has changed anything, so a raise leaves the caller's state
      as it was.
    - The dicts of the list are distinct objects ([json.load] and
      [create_task] make new ones), so an update of one in place is the
      replacement of the element at its position.
    - [datetime.now()] is an input: a function from the number of earlier
      calls to the instant read.
    - A Python string is a sequence of Unicode characters. It is kept as
      the bytes of its UTF-8 encoding, the form in which the file holds it:
      equality and the substring test on the bytes are those on the
      characters, and the order of the bytes is the order of the code
      points, by which Python compares strings. [str.strip()] is written
      out on the characters. [str.lower()] follows the case tables of the
      Unicode database that the interpreter carries; the tables are not
      part of the program, and the method is a parameter of the embedding.
    - The [json] module is not part of the program: a file is described by
      what [open] and [json.load] make of it, an exception included, and
      [json.dump] followed by [json.load] gives back the value that was
      written. *)

From Stdlib Require Import ZArith Ascii String List Bool Sorted Lia.
From stdpp Require Import base option list strings gmap fin_maps.

Set Warnings "-register-all".
Local Open Scope string_scope.
Local Open Scope Z_scope.
Local Open Scope list_scope.

(** ** Values and exceptions *)

Inductive value : Type :=
  | VNone
  | VBool (b : bool)
  | VNum (n : Z)
  | VStr (s : string).

Global Instance value_eq_dec : EqDecision value.
Proof. solve_decision. Defined.

(** The exceptions that the functions below raise or let through. The
    last four come from [open] and [json.load]: [OSError] stands for its
    subclasses other than [FileNotFoundError] (a directory, a file that may
    not be read), [UnicodeDecodeError] is raised for bytes that are not
    UTF-8, [RecursionError] for nesting that is too deep, and [ValueError]
    for an integer of too many digits. *)
Inductive exn : Type :=
  | KeyError (k : string)
  | TypeError
  | AttributeError
  | OSError
  | UnicodeDecodeError
  | RecursionError
  | ValueError.

Inductive result (A : Type) : Type :=
  | Ok (a : A)
  | Raise (e : exn).
Arguments Ok {A} a.
Arguments Raise {A} e.

Global Instance result_ret : MRet result := fun A a => Ok a.

Global Instance result_bind : MBind result := fun A B k r =>
  match r with
  | Ok a => k a
  | Raise e => Raise e
  end.

Global Instance result_fmap : FMap result := fun A B f r =>
  match r with
  | Ok a => Ok (f a)
  | Raise e => Raise e
  end.

(** A task record: [Dict[str, Any]]. *)
Abbreviation task := (gmap string value).

(** [d[k]]: the value under [k], or [KeyError]. *)
Definition getitem (d : task) (k : string) : result value :=
  match d !! k with
  | Some v => Ok v
  | None => Raise (KeyError k)
  end.

(** Python's [==] on scalars: [bool] is a subtype of [int], so [True == 1]
    and [False == 0]; values of different kinds are otherwise unequal. *)
Definition canon (v : value) : value :=
  match v with
  | VBool b => VNum (Z.b2z b)
  | _ => v
  end.

Definition py_eq (a b : value) : bool := bool_decide (canon a = canon b).

(** Truth value of a scalar, as [not] and [if] take it. *)
Definition truthy (v : value) : bool :=
  match v with
  | VNone => false
  | VBool b => b
  | VNum n => negb (n =? 0)
  | VStr s => negb (String.eqb s "")
  end.

(** ** The clock *)

(** One reading of [datetime.now()]: [timestamp()] and [isoformat()]. *)
Record instant : Type := { timestamp : Z; isoformat : string }.

(** ** create_task *)

(** [create_task] calls [datetime.now()] twice: [t_id] is the first reading
    and [t_created] the second. *)
Definition create_task (t_id t_created : instant) (text priority : string)
    : task :=
  <["id" := VNum (timestamp t_id)]>
  (<["task" := VStr text]>
  (<["done" := VBool false]>
  (<["priority" := VStr priority]>
  (<["created_at" := VStr (isoformat t_created)]>
  (<["completed_at" := VNone]> ∅))))).

(** ** Strings *)

(** The bytes [0x80]-[0xBF] continue a character of more than one byte. *)
Definition is_continuation (a : ascii) : bool :=
  let n := nat_of_ascii a in ((128 <=? n) && (n <=? 191))%nat.

(** The string goes on with a continuation byte. *)
Definition continued (s : string) : bool :=
  match s with
  | EmptyString => false
  | String b _ => is_continuation b
  end.

(** The characters of a string: each byte that starts a character, with
    the continuation bytes behind it. *)
Fixpoint characters (s : string) : list string :=
  match s with
  | EmptyString => []
  | String a s' =>
      match characters s' with
      | [] => [String a EmptyString]
      | c :: cs =>
          if continued s' then String a c :: cs
          else String a EmptyString :: c :: cs
      end
  end.

(** [''.join(cs)]. *)
Definition join (cs : list string) : string := foldr String.append "" cs.

(** The UTF-8 encoding of the character with code point [n]. *)
Definition utf8 (n : N) : string :=
  (if n <? 0x80 then String (ascii_of_N n) ""
   else if n <? 0x800 then
     String (ascii_of_N (0xC0 + n / 0x40))
    (String (ascii_of_N (0x80 + n mod 0x40)) "")
   else if n <? 0x10000 then
     String (ascii_of_N (0xE0 + n / 0x1000))
    (String (ascii_of_N (0x80 + n / 0x40 mod 0x40))
    (String (ascii_of_N (0x80 + n mod 0x40)) ""))
   else
     String (ascii_of_N (0xF0 + n / 0x40000))
    (String (ascii_of_N (0x80 + n / 0x1000 mod 0x40))
    (String (ascii_of_N (0x80 + n / 0x40 mod 0x40))
    (String (ascii_of_N (0x80 + n mod 0x40)) ""))))%N.

(** The characters for which [str.isspace()] holds, which are those that
    [str.strip()] removes: the controls U+0009-U+000D and U+001C-U+001F,
    the space, U+0085, U+00A0, U+1680, U+2000-U+200A, U+2028, U+2029,
    U+202F, U+205F and U+3000. *)
Definition white_space : list N :=
  [0x9; 0xA; 0xB; 0xC; 0xD; 0x1C; 0x1D; 0x1E; 0x1F; 0x20; 0x85; 0xA0;
   0x1680; 0x2000; 0x2001; 0x2002; 0x2003; 0x2004; 0x2005; 0x2006; 0x2007;
   0x2008; 0x2009; 0x200A; 0x2028; 0x2029; 0x202F; 0x205F; 0x3000]%N.

Definition is_space (c : string) : bool :=
  existsb (fun n => String.eqb c (utf8 n)) white_space.

(** [str.lstrip()] and [str.rstrip()] on the list of characters. *)
Fixpoint lstrip (cs : list string) : list string :=
  match cs with
  | [] => []
  | c :: cs' => if is_space c then lstrip cs' else cs
  end.

Fixpoint rstrip (cs : list string) : list string :=
  match cs with
  | [] => []
  | c :: cs' =>
      match rstrip cs' with
      | [] => if is_space c then [] else [c]
      | r => c :: r
      end
  end.

(** [str.strip()]: the string without the white space at its two ends. *)
Definition strip (s : string) : string :=
  join (rstrip (lstrip (characters s))).

(** [str.lower()], a parameter: the case tables of the interpreter. *)
Class StrLower : Type := lower : string → string.

(** ** The file and load_tasks *)

(** What [json.load] returns. An object maps strings to scalars; an array
    holds any JSON values. *)
Inductive json : Type :=
  | JAtom (v : value)
  | JObj (d : task)
  | JArr (items : list json).

(** The state of [tasks.json], by what reading it does: there is no such
    file ([os.path.exists] is false, or [open] raises [FileNotFoundError]);
    [json.load] rejects the text with [JSONDecodeError]; [open] or
    [json.load] raises another exception [e] (the path is a directory or
    may not be read, the bytes are not UTF-8, the nesting is too deep, an
    integer has too many digits); or the text parses to the value [j]. *)
Inductive file : Type :=
  | Absent
  | Malformed
  | Unreadable (e : exn)
  | Document (j : json).

(** [k in x] for a string [k]: key of a dict, substring of a string, element
    of a list; the other scalars are not containers. *)
Definition is_str (k : string) (x : json) : bool :=
  match x with
  | JAtom (VStr s) => String.eqb s k
  | _ => false
  end.

Definition contains (k : string) (x : json) : result bool :=
  match x with
  | JObj d => Ok (bool_decide (is_Some (d !! k)))
  | JAtom (VStr s) =>
      Ok (match String.index 0 k s with Some _ => true | None => false end)
  | JArr items => Ok (existsb (is_str k) items)
  | JAtom _ => Raise TypeError
  end.

(** [x[k] = v]: only a dict takes a string key. *)
Definition setitem (x : json) (k : string) (v : value) : result json :=
  match x with
  | JObj d => Ok (JObj (<[k := v]> d))
  | _ => Raise TypeError
  end.

(** [if k not in task: task[k] = default], with the number [c] of clock
    readings made so far; [reads] says that the default is one more
    reading. The right-hand side is evaluated before the assignment. *)
Definition fill (k : string) (dflt : value) (reads : bool)
    (st : json * nat) : result (json * nat) :=
  let '(x, c) := st in
  has ← contains k x;
  if (has : bool) then Ok (x, c)
  else x' ← setitem x k dflt; Ok (x', if reads then S c else c).

(** The body of the back-fill loop for one element. *)
Definition backfill (now : nat → instant) (st : json * nat)
    : result (json * nat) :=
  st ← fill "id" (VNum (timestamp (now st.2))) true st;
  st ← fill "priority" (VStr "Medium") false st;
  st ← fill "created_at" (VStr (isoformat (now st.2))) true st;
  fill "completed_at" VNone false st.

Fixpoint backfill_all (now : nat → instant) (c : nat) (items : list json)
    : result (list json) :=
  match items with
  | [] => Ok []
  | x :: rest =>
      st ← backfill now (x, c);
      rest' ← backfill_all now st.2 rest;
      Ok (st.1 :: rest')
  end.

(** [for task in tasks]: the elements of a list, the keys of a dict, the
    characters of a string. *)
Definition iter (j : json) : result (list json) :=
  match j with
  | JArr items => Ok items
  | JObj d => Ok ((fun kv => JAtom (VStr kv.1)) <$> map_to_list d)
  | JAtom (VStr s) => Ok ((fun c => JAtom (VStr c)) <$> characters s)
  | JAtom _ => Raise TypeError
  end.

(** [load_tasks]. Only [JSONDecodeError] and [FileNotFoundError] are
    caught, and any other exception of [open], of [json.load] or of the
    loop leaves the function; the elements of a list are updated in place,
    and strings are immutable, so a value that is not a list comes back
    unchanged when the loop raises nothing. *)
Definition load_tasks (now : nat → instant) (f : file) : result json :=
  match f with
  | Absent => Ok (JArr [])
  | Malformed => Ok (JArr [])
  | Unreadable e => Raise e
  | Document j =>
      items ← iter j;
      items' ← backfill_all now 0%nat items;
      Ok (match j with JArr _ => JArr items' | _ => j end)
  end.

(** The list of task dictionaries as a JSON value, and back. *)
Definition json_of_tasks (tasks : list task) : json := JArr (JObj <$> tasks).

Definition task_of_json (j : json) : option task :=
  match j with
  | JObj d => Some d
  | _ => None
  end.

Definition tasks_of_json (j : json) : option (list task) :=
  match j with
  | JArr items => mapM task_of_json items
  | _ => None
  end.

(** ** save_tasks *)

(** What the disk does with a write: it succeeds, or [open] or [json.dump]
    raises and leaves [rest] behind. *)
Inductive write : Type :=
  | Written
  | WriteFailed (rest : file).

(** [save_tasks]: the whole list replaces the file; an exception is shown
    with [st.error] and not raised again. *)
Definition save_tasks (w : write) (tasks : list task) : file :=
  match w with
  | Written => Document (json_of_tasks tasks)
  | WriteFailed rest => rest
  end.

(** ** The operations on the list of tasks *)

(** The loop of [toggle_task_completion]: the first task whose id equals
    [task_id] gets [done] negated and [completed_at] set to the time [t] of
    the call or cleared; the loop stops there. *)
Fixpoint toggle (t : instant) (task_id : value) (tasks : list task)
    : result (list task) :=
  match tasks with
  | [] => Ok []
  | task :: rest =>
      i ← getitem task "id";
      if py_eq i task_id then
        d ← getitem task "done";
        let done := negb (truthy d) in
        Ok (<["completed_at" := if done then VStr (isoformat t) else VNone]>
              (<["done" := VBool done]> task) :: rest)
      else
        rest' ← toggle t task_id rest;
        Ok (task :: rest')
  end.

(** The comprehension of [delete_task]. *)
Fixpoint delete (task_id : value) (tasks : list task) : result (list task) :=
  match tasks with
  | [] => Ok []
  | task :: rest =>
      i ← getitem task "id";
      rest' ← delete task_id rest;
      Ok (if py_eq i task_id then rest' else task :: rest')
  end.

(** The loop of [edit_task]. *)
Fixpoint edit (task_id : value) (new_text new_priority : string)
    (tasks : list task) : result (list task) :=
  match tasks with
  | [] => Ok []
  | task :: rest =>
      i ← getitem task "id";
      if py_eq i task_id then
        Ok (<["priority" := VStr new_priority]>
              (<["task" := VStr new_text]> task) :: rest)
      else
        rest' ← edit task_id new_text new_priority rest;
        Ok (task :: rest')
  end.

(** The comprehension behind the "Clear Completed" button. *)
Fixpoint clear_completed (tasks : list task) : result (list task) :=
  match tasks with
  | [] => Ok []
  | task :: rest =>
      d ← getitem task "done";
      rest' ← clear_completed rest;
      Ok (if truthy d then rest' else task :: rest')
  end.

(** The submit handler of the add form: a text that is empty once stripped
    adds nothing. *)
Definition add (t_id t_created : instant) (new_task priority : string)
    (tasks : list task) : list task :=
  if String.eqb (strip new_task) "" then tasks
  else tasks ++ [create_task t_id t_created (strip new_task) priority].

(** "Confirm Import": [tasks.extend(imported_tasks)] for an uploaded array
    of objects. *)
Definition import_batch (imported : list task) (tasks : list task)
    : list task :=
  tasks ++ imported.

(** ** The session: the list in memory and the file *)

Record session : Type := { tasks : list task; disk : file }.

Definition saved (w : write) (ts : list task) : session :=
  {| tasks := ts; disk := save_tasks w ts |}.

(** The functions of [app.py] that change [st.session_state.tasks] and
    then call [save_tasks]; an exception of the loop leaves before the
    save. *)
Definition toggle_task_completion (w : write) (t : instant)
    (task_id : value) (s : session) : result session :=
  ts ← toggle t task_id (tasks s); Ok (saved w ts).

Definition delete_task (w : write) (task_id : value) (s : session)
    : result session :=
  ts ← delete task_id (tasks s); Ok (saved w ts).

Definition edit_task (w : write) (task_id : value)
    (new_text new_priority : string) (s : session) : result session :=
  ts ← edit task_id new_text new_priority (tasks s); Ok (saved w ts).

(** The handlers written in the script: the clear button, the add form
    (nothing happens for a text that strips to nothing) and the import. *)
Definition clear_handler (w : write) (s : session) : result session :=
  ts ← clear_completed (tasks s); Ok (saved w ts).

Definition add_handler (w : write) (t_id t_created : instant)
    (new_task priority : string) (s : session) : session :=
  if String.eqb (strip new_task) "" then s
  else saved w (add t_id t_created new_task priority (tasks s)).

Definition import_handler (w : write) (imported : list task) (s : session)
    : session :=
  saved w (import_batch imported (tasks s)).

Inductive action : Type :=
  | Add (t_id t_created : instant) (new_task priority : string)
  | Toggle (t : instant) (task_id : value)
  | Edit (task_id : value) (new_text new_priority : string)
  | Delete (task_id : value)
  | ClearCompleted
  | ImportBatch (imported : list task).

(** An exception that nothing catches ends the run of the script, and the
    session is what it was. *)
Definition settle (r : result session) (s : session) : session :=
  match r with
  | Ok s' => s'
  | Raise _ => s
  end.

(** One user action, with what the disk does with the write. *)
Definition step (a : action) (w : write) (s : session) : session :=
  match a with
  | Add t_id t_created new_task priority =>
      add_handler w t_id t_created new_task priority s
  | Toggle t task_id => settle (toggle_task_completion w t task_id s) s
  | Edit task_id new_text new_priority =>
      settle (edit_task w task_id new_text new_priority s) s
  | Delete task_id => settle (delete_task w task_id s) s
  | ClearCompleted => settle (clear_handler w s) s
  | ImportBatch imported => import_handler w imported s
  end.

Fixpoint run (acts : list (action * write)) (s : session) : session :=
  match acts with
  | [] => s
  | (a, w) :: rest => run rest (step a w s)
  end.

(** Start-up: [st.session_state.tasks = load_tasks()], for a file that
    holds an array of objects. *)
Definition start (now : nat → instant) (f : file) : option session :=
  match load_tasks now f with
  | Ok j => (fun ts => {| tasks := ts; disk := f |}) <$> tasks_of_json j
  | Raise _ => None
  end.

(** ** sort_tasks *)

(** [sorted(l, key=...)] is stable, and a stable sort has one possible
    result; it is written here as the insertion sort that puts an element
    in front of the first one it does not exceed. *)
Section Sorted.
Context {A K : Type} (leb : K → K → bool) (key : A → K).

Fixpoint insert_by (x : A) (l : list A) : list A :=
  match l with
  | [] => [x]
  | y :: l' =>
      if leb (key x) (key y) then x :: y :: l' else y :: insert_by x l'
  end.

Fixpoint sorted_by (l : list A) : list A :=
  match l with
  | [] => []
  | x :: l' => insert_by x (sorted_by l')
  end.
End Sorted.

(** [priority_order.get(p, 1)]. *)
Definition priority_order (p : value) : Z :=
  match p with
  | VStr s =>
      if String.eqb s "High" then 0
      else if String.eqb s "Medium" then 1
      else if String.eqb s "Low" then 2
      else 1
  | _ => 1
  end.


(** [x["task"].lower()]: only a string has the method. *)
Definition lower_key {L : StrLower} (v : value) : result string :=
  match v with
  | VStr s => Ok (lower s)
  | _ => Raise AttributeError
  end.

(** Python orders two scalars of one kind: booleans and numbers as
    numbers, strings by the codes of their characters; [None] is only equal
    to itself. *)
Definition kind (v : value) : nat :=
  match v with
  | VNone => 0
  | VBool _ | VNum _ => 1
  | VStr _ => 2
  end.

(** [a <= b] for two values of one kind. For two values of different
    kinds, where Python raises [TypeError], the kinds are compared, which
    keeps the function a total order; [py_sorted] does not sort such
    keys. *)
Definition value_leb (a b : value) : bool :=
  match canon a, canon b with
  | VNum x, VNum y => x <=? y
  | VStr s, VStr t => String.leb s t
  | x, y => (kind x <=? kind y)%nat
  end.

(** Tuples compare by the first component in which they differ. *)
Definition tuple_leb (a b : value * value) : bool :=
  if py_eq a.1 b.1 then value_leb a.2 b.2 else value_leb a.1 b.1.

(** The comparison of two keys raises nothing: the first components are of
    one kind and, when they are equal, so are the second ones. *)
Definition comparable (a b : value * value) : bool :=
  (kind a.1 =? kind b.1)%nat &&
  (if py_eq a.1 b.1 then (kind a.2 =? kind b.2)%nat else true).

(** [sorted(tasks, key=...)]. The keys are computed for the whole list
    first, and the lambda can raise. A sort that compares finds out about
    every pair of keys that cannot be compared, so it raises [TypeError]
    exactly when there is such a pair. *)
Definition py_sorted (key : task → result (value * value))
    (tasks : list task) : result (list task) :=
  keyed ← mapM (fun x => k ← key x; Ok (k, x)) tasks;
  if forallb (fun a => forallb (comparable a) keyed.*1) keyed.*1
  then Ok (sorted_by tuple_leb fst keyed).*2
  else Raise TypeError.

Definition sort_tasks {L : StrLower} (tasks : list task) (sort_by : string)
    : result (list task) :=
  if String.eqb sort_by "Priority" then
    py_sorted
      (fun x => d ← getitem x "done"; p ← getitem x "priority";
                Ok (d, VNum (priority_order p)))
      tasks
  else if String.eqb sort_by "Created Date" then
    py_sorted
      (fun x => d ← getitem x "done"; c ← getitem x "created_at"; Ok (d, c))
      tasks
  else if String.eqb sort_by "Alphabetical" then
    py_sorted
      (fun x => d ← getitem x "done"; t ← getitem x "task";
                l ← lower_key t; Ok (d, VStr l))
      tasks
  else Ok tasks.


(** ** The sidebar and the list on the page *)

(** [sum(1 for task in tasks if task["done"])]. *)
Fixpoint completed_count (tasks : list task) : result Z :=
  match tasks with
  | [] => Ok 0
  | task :: rest =>
      d ← getitem task "done";
      n ← completed_count rest;
      Ok (if truthy d then 1 + n else n)
  end.

(** The three numbers of the dashboard: [total_tasks], [pending_tasks] and
    [completed_tasks]. *)
Definition statistics (tasks : list task) : result (Z * Z * Z) :=
  let total_tasks := Z.of_nat (length tasks) in
  completed_tasks ← completed_count tasks;
  Ok (total_tasks, total_tasks - completed_tasks, completed_tasks).

(** The "Clear Completed" button is on the page [if completed_tasks > 0]. *)
Definition clear_offered (tasks : list task) : result bool :=
  completed_tasks ← completed_count tasks;
  Ok (0 <? completed_tasks).



(** ** Predicates of the statements *)

(** [d.setdefault(k, v)], the effect of one back-fill line on a dict. *)
Definition setdefault (k : string) (v : value) (d : task) : task :=
  match d !! k with
  | Some _ => d
  | None => <[k := v]> d
  end.

(** The record is complete: it carries the six fields of a task. *)
Definition complete (d : task) : bool :=
  forallb (fun k => bool_decide (is_Some (d !! k)))
    ["id"; "task"; "done"; "priority"; "created_at"; "completed_at"].

(** [task["id"] == task_id], false for a record without id. *)
Definition has_id (task_id : value) (d : task) : bool :=
  match d !! "id" with
  | Some i => py_eq i task_id
  | None => false
  end.

(** [done == True]. *)
Definition is_done (d : task) : bool :=
  match d !! "done" with
  | Some v => py_eq v (VBool true)
  | None => false
  end.

(** [completed_at] is present: the key is there and does not hold [None]. *)
Definition has_completed_at (d : task) : bool :=
  match d !! "completed_at" with
  | Some VNone | None => false
  | Some _ => true
  end.

(** The invariant of a record: done exactly when [completed_at] is
    present. *)
Definition consistent (d : task) : bool :=
  bool_decide (is_done d = has_completed_at d).

(** The four back-fill lines on a dict, with the number of clock readings
    made so far. *)
Definition backfill_task (now : nat → instant) (c : nat) (d : task)
    : task * nat :=
  let c1 := match d !! "id" with Some _ => c | None => S c end in
  let c2 := match d !! "created_at" with Some _ => c1 | None => S c1 end in
  (setdefault "completed_at" VNone
     (setdefault "created_at" (VStr (isoformat (now c1)))
        (setdefault "priority" (VStr "Medium")
           (setdefault "id" (VNum (timestamp (now c))) d))),
   c2).

Fixpoint backfill_tasks (now : nat → instant) (c : nat) (ts : list task)
    : list task :=
  match ts with
  | [] => []
  | d :: rest =>
      (backfill_task now c d).1 :: backfill_tasks now (backfill_task now c d).2 rest
  end.

(** What a back-filled key holds when the record did not have it. *)
Definition default_of (now : nat → instant) (c : nat) (d : task)
    (k : string) : option value :=
  if decide (k = "id") then Some (VNum (timestamp (now c)))
  else if decide (k = "priority") then Some (VStr "Medium")
  else if decide (k = "created_at") then
    Some (VStr (isoformat
            (now (match d !! "id" with Some _ => c | None => S c end))))
  else if decide (k = "completed_at") then Some VNone
  else None.

(** Field [k] of the record at position [i]. *)
Definition field (ts : list task) (i : nat) (k : string) : option value :=
  d ← ts !! i; d !! k.

(** A clock for the examples: call number [c] reads [c] microseconds after
    the start of 2024 and prints the last digit of [c] as the seconds. *)
Definition clock0 (c : nat) : instant :=
  {| timestamp := 1704067200000000 + Z.of_nat c;
     isoformat :=
       "2024-01-01T00:00:0" +:+ String (ascii_of_nat (48 + c mod 10)) "" |}.

(** The record that [toggle_task_completion] makes of [d] at time [t], when
    [d["done"]] held [v]. *)
Definition toggled (t : instant) (v : value) (d : task) : task :=
  <["completed_at" := if negb (truthy v) then VStr (isoformat t) else VNone]>
    (<["done" := VBool (negb (truthy v))]> d).

(** The record that [edit_task] makes of [d]. *)
Definition edited (new_text new_priority : string) (d : task) : task :=
  <["priority" := VStr new_priority]> (<["task" := VStr new_text]> d).

(** [i] is the position of the first record whose id equals [task_id], and
    the loop gets there: the records in front carry other ids. *)
Definition first_match (task_id : value) (ts : list task) (i : nat)
    (d : task) : Prop :=
  ts !! i = Some d ∧ has_id task_id d = true ∧
  ∀ j y, (j < i)%nat → ts !! j = Some y →
    is_Some (y !! "id") ∧ has_id task_id y = false.

(** Records for the examples: a task as the add form makes it, the same
    kind of task after it was completed, and a record with a text only, as
    an imported file can hold it. *)
Definition task_milk : task :=
  create_task (clock0 0) (clock0 1) "Buy milk" "High".

Definition task_rent : task :=
  toggled (clock0 5) (VBool false)
    (create_task (clock0 2) (clock0 3) "Pay rent" "Low").

Definition task_bare : task := {[ "task" := VStr "Water plants" ]}.

(** The list that an action makes of [ts], or the exception that stops
    it. *)
Definition apply (a : action) (ts : list task) : result (list task) :=
  match a with
  | Add t_id t_created new_task priority =>
      Ok (add t_id t_created new_task priority ts)
  | Toggle t task_id => toggle t task_id ts
  | Edit task_id new_text new_priority => edit task_id new_text new_priority ts
  | Delete task_id => delete task_id ts
  | ClearCompleted => clear_completed ts
  | ImportBatch imported => Ok (import_batch imported ts)
  end.

(** The imported records satisfy the invariant. *)
Definition imports_consistent (a : action) : Prop :=
  match a with
  | ImportBatch imported => Forall (fun d => consistent d = true) imported
  | _ => True
  end.

(** The ids in the list, each in the form [==] compares. *)
Definition id_keys (ts : list task) : list value :=
  omap (fun d : task => canon <$> d !! "id") ts.

(** No two records at different places have equal ids. *)
Definition unique_ids (ts : list task) : Prop :=
  ∀ i j d d' x,
    ts !! i = Some d → ts !! j = Some d' →
    d !! "id" = Some x → has_id x d' = true → i = j.

(** What the code does not check: the clock reading that becomes the id of
    an added task is not an id of the list, and imported ids are distinct
    from each other and from those of the list. *)
Definition fresh (a : action) (ts : list task) : Prop :=
  match a with
  | Add t_id _ new_task _ =>
      strip new_task ≠ "" → VNum (timestamp t_id) ∉ id_keys ts
  | ImportBatch imported =>
      NoDup (id_keys imported) ∧
      ∀ x, x ∈ id_keys imported → x ∉ id_keys ts
  | _ => True
  end.

Fixpoint all_fresh (acts : list (action * write)) (s : session) : Prop :=
  match acts with
  | [] => True
  | (a, w) :: rest => fresh a (tasks s) ∧ all_fresh rest (step a w s)
  end.


Definition rank_of (d : task) : Z :=
  match d !! "priority" with
  | Some p => priority_order p
  | None => 1
  end.

Definition created_of (d : task) : string :=
  match d !! "created_at" with
  | Some (VStr s) => s
  | _ => ""
  end.

Definition text_of (d : task) : string :=
  match d !! "task" with
  | Some (VStr s) => s
  | _ => ""
  end.


(** The record has the fields that [sort_tasks] reads, of the kinds the
    schema gives them: a boolean [done], any [priority], the strings
    [created_at] and [task]. *)
Definition sortable (d : task) : bool :=
  match d !! "done", d !! "priority", d !! "created_at", d !! "task" with
  | Some (VBool _), Some _, Some (VStr _), Some (VStr _) => true
  | _, _, _, _ => false
  end.




(** The key tuples that the three lambdas of [sort_tasks] return on a
    record that follows the schema. *)
Definition priority_tuple (d : task) : value * value :=
  (VBool (is_done d), VNum (rank_of d)).

Definition created_tuple (d : task) : value * value :=
  (VBool (is_done d), VStr (created_of d)).

Definition alphabetical_tuple {L : StrLower} (d : task) : value * value :=
  (VBool (is_done d), VStr (lower (text_of d))).

(** The text that [datetime.isoformat()] writes for a date and time without
    zone, as [datetime.now()] returns it: fields of fixed width, and the
    microseconds only when they are not zero. *)
Record datetime : Type := {
  year : nat; month : nat; day : nat;
  hour : nat; minute : nat; second : nat; microsecond : nat
}.


Definition digit (n : nat) : ascii := ascii_of_nat (48 + n).

(** [x] in [n] decimal digits, with zeros in front. *)
Fixpoint pad (n x : nat) : string :=
  match n with
  | O => ""
  | S n' => String (digit (x / 10 ^ n')) (pad n' (x mod 10 ^ n'))
  end.

Definition isoformat_of (d : datetime) : string :=
  pad 4 (year d) +:+ "-" +:+ pad 2 (month d) +:+ "-" +:+ pad 2 (day d) +:+
  "T" +:+ pad 2 (hour d) +:+ ":" +:+ pad 2 (minute d) +:+ ":" +:+
  pad 2 (second d) +:+
  (if (microsecond d =? 0)%nat then "" else "." +:+ pad 6 (microsecond d)).



(** The record carries the key [k]. *)
Definition has_key (k : string) (d : task) : bool :=
  bool_decide (is_Some (d !! k)).

(** [task["done"]] is true as [if] takes it; false for a record without
    [done]. *)
Definition done_truthy (d : task) : bool :=
  match d !! "done" with
  | Some v => truthy v
  | None => false
  end.

(** The record has the four keys that [load_tasks] fills in. *)
Definition backfilled (d : task) : bool :=
  has_key "id" d && has_key "priority" d && has_key "created_at" d &&
  has_key "completed_at" d.

(** The imported records are complete. *)
Definition imports_complete (a : action) : Prop :=
  match a with
  | ImportBatch imported => Forall (fun d => complete d = true) imported
  | _ => True
  end.

(** The string holds white space only. *)
Definition all_space (s : string) : bool := forallb is_space (characters s).

(** The string holds continuation bytes only. *)
Fixpoint continuation (s : string) : bool :=
  match s with
  | EmptyString => true
  | String b s' => is_continuation b && continuation s'
  end.

(** The case tables on the ASCII characters: the letters A-Z go to a-z and
    nothing else changes. This is [str.lower()] on a text of ASCII
    characters, and the examples, whose texts are such, are computed with
    it. *)
Definition lower_ascii (a : ascii) : ascii :=
  let n := nat_of_ascii a in
  if ((65 <=? n) && (n <=? 90))%nat then ascii_of_nat (n + 32) else a.

Fixpoint ascii_lower (s : string) : string :=
  match s with
  | EmptyString => EmptyString
  | String a s' => String (lower_ascii a) (ascii_lower s')
  end.


(** The key of the record can be computed: the record carries [done] and
    the field [f], and its text is a string when the text is the key. *)
Definition keyed (f : string) (d : task) : Prop :=
  is_Some (d !! "done") ∧ is_Some (d !! f) ∧
  (f = "task" → ∃ s, d !! "task" = Some (VStr s)).

(** The number of clock readings that the back-fill makes for a record, and
    the number it has made when it gets to the record at position [i]. *)
Definition reads_of (d : task) : nat :=
  match d !! "id", d !! "created_at" with
  | Some _, Some _ => 0
  | None, None => 2
  | _, _ => 1
  end.

Fixpoint readings (ts : list task) (i : nat) : nat :=
  match ts, i with
  | d :: rest, S i' => reads_of d + readings rest i'
  | _, _ => 0
  end.

(** Records that follow the schema but for one key, as an imported or an
    edited file can hold them; each carries [done], so the counters of the
    dashboard are computed and the page gets to the list: a task without
    [id], a task without [task], and a task whose [done] is [null]. *)
Definition task_anon : task :=
  <["task" := VStr "Water plants"]>
  (<["done" := VBool false]>
  (<["priority" := VStr "Low"]>
  (<["created_at" := VStr "2024-01-01T00:00:07"]>
  (<["completed_at" := VNone]> ∅)))).



(** * Properties *)

(** ** Python equality *)

Lemma py_eq_refl v : py_eq v v = true.
Proof. unfold py_eq. by rewrite bool_decide_eq_true. Qed.

Lemma py_eq_sym a b : py_eq a b = py_eq b a.
Proof. unfold py_eq. apply bool_decide_ext. split; congruence. Qed.

Lemma py_eq_trans a b c : py_eq a b = true → py_eq b c = true → py_eq a c = true.
Proof. unfold py_eq. rewrite !bool_decide_eq_true. congruence. Qed.

Lemma getitem_Ok (d : task) k v : getitem d k = Ok v ↔ d !! k = Some v.
Proof. unfold getitem. destruct (d !! k); split; congruence. Qed.

(** ** create_task *)

(** C9: a task made by [create_task] has [done] false and [completed_at]
    [None], whatever the text and the priority; the add handler either
    leaves the list alone or appends exactly such a task. *)
Theorem create_task_incomplete (t_id t_created : instant)
    (text priority : string) (ts : list task) :
  let new := create_task t_id t_created text priority in
  new !! "done" = Some (VBool false) ∧
  new !! "completed_at" = Some VNone ∧
  is_done new = false ∧ has_completed_at new = false ∧
  (add t_id t_created text priority ts = ts ∨
   ∃ r, add t_id t_created text priority ts = ts ++ [r] ∧
        r !! "done" = Some (VBool false) ∧ r !! "completed_at" = Some VNone).
Proof.
  cbv zeta. unfold is_done, has_completed_at, create_task, add.
  repeat split; try by simplify_map_eq.
  destruct (String.eqb (strip text) ""); [by left|right].
  eexists. split; [done|]. by simplify_map_eq.
Qed.

(** ** load_tasks on an array of objects *)

Lemma fill_obj k v reads d c :
  fill k v reads (JObj d, c) =
  Ok (JObj (setdefault k v d),
      match d !! k with Some _ => c | None => if reads then S c else c end).
Proof.
  unfold fill, setdefault, contains, setitem.
  cbn [mbind result_bind].
  destruct (d !! k) eqn:E.
  - rewrite bool_decide_eq_true_2 by (by eexists). done.
  - rewrite bool_decide_eq_false_2 by (by intros [? ?]). done.
Qed.

Lemma setdefault_lookup k v (d : task) k' :
  setdefault k v d !! k' =
  match d !! k' with
  | Some x => Some x
  | None => if decide (k' = k) then Some v else None
  end.
Proof.
  unfold setdefault. destruct (d !! k) eqn:E.
  - destruct (d !! k') eqn:E'; [done|]. case_decide; congruence.
  - destruct (decide (k' = k)) as [->|Hne].
    + rewrite lookup_insert_eq, E. done.
    + rewrite lookup_insert_ne by done. by destruct (d !! k').
Qed.

Lemma backfill_obj now c d :
  backfill now (JObj d, c) =
  Ok (JObj (backfill_task now c d).1, (backfill_task now c d).2).
Proof.
  unfold backfill, backfill_task.
  do 3 (rewrite fill_obj; cbn [mbind result_bind fst snd]).
  rewrite fill_obj.
  rewrite !setdefault_lookup.
  destruct (d !! "id"), (d !! "priority"), (d !! "created_at"),
    (d !! "completed_at"); repeat case_decide; done.
Qed.

Lemma backfill_task_lookup now c d k :
  (backfill_task now c d).1 !! k =
  match d !! k with
  | Some v => Some v
  | None => default_of now c d k
  end.
Proof.
  unfold backfill_task, default_of; simpl.
  rewrite !setdefault_lookup.
  destruct (d !! k); [done|].
  repeat case_decide; subst; try done.
Qed.

Lemma backfill_all_objs now ts : ∀ c,
  backfill_all now c (JObj <$> ts) = Ok (JObj <$> backfill_tasks now c ts).
Proof.
  induction ts as [|d ts IH]; intros c; [done|].
  cbn [fmap list_fmap backfill_all backfill_tasks].
  rewrite backfill_obj. simpl. rewrite IH. done.
Qed.

Lemma load_tasks_objs now ts :
  load_tasks now (Document (json_of_tasks ts)) =
  Ok (json_of_tasks (backfill_tasks now 0 ts)).
Proof.
  unfold load_tasks, json_of_tasks. simpl. by rewrite backfill_all_objs.
Qed.

Lemma backfill_tasks_length now ts : ∀ c,
  length (backfill_tasks now c ts) = length ts.
Proof. induction ts; intros; simpl; auto. Qed.

Lemma backfill_tasks_lookup now ts : ∀ c i d,
  ts !! i = Some d →
  ∃ c', backfill_tasks now c ts !! i = Some (backfill_task now c' d).1.
Proof.
  induction ts as [|d0 ts IH]; intros c i d Hi; [done|].
  destruct i as [|i]; simpl in *.
  - injection Hi as ->. by exists c.
  - by apply IH.
Qed.

Lemma tasks_of_json_of_tasks ts : tasks_of_json (json_of_tasks ts) = Some ts.
Proof.
  unfold tasks_of_json, json_of_tasks.
  induction ts as [|d ts IH]; [done|].
  cbn [fmap list_fmap mapM]. simpl. rewrite IH. done.
Qed.

Lemma complete_lookup d k :
  complete d = true →
  k ∈ ["id"; "task"; "done"; "priority"; "created_at"; "completed_at"] →
  is_Some (d !! k).
Proof.
  unfold complete. rewrite forallb_forall. intros H Hk.
  apply list_elem_of_In, H in Hk. by apply bool_decide_eq_true in Hk.
Qed.

Lemma setdefault_present k v (d : task) : is_Some (d !! k) → setdefault k v d = d.
Proof. intros [x Hx]. unfold setdefault. by rewrite Hx. Qed.

Lemma backfill_task_complete now c d :
  complete d = true → backfill_task now c d = (d, c).
Proof.
  intros H. unfold backfill_task.
  destruct (complete_lookup d "id" H) as [x1 E1]; [set_solver|].
  destruct (complete_lookup d "priority" H) as [x2 E2]; [set_solver|].
  destruct (complete_lookup d "created_at" H) as [x3 E3]; [set_solver|].
  destruct (complete_lookup d "completed_at" H) as [x4 E4]; [set_solver|].
  rewrite E1, E3.
  rewrite (setdefault_present "id") by eauto.
  rewrite (setdefault_present "priority") by eauto.
  rewrite (setdefault_present "created_at") by eauto.
  rewrite (setdefault_present "completed_at") by eauto.
  done.
Qed.

Lemma backfill_tasks_complete now ts : ∀ c,
  Forall (fun d => complete d = true) ts → backfill_tasks now c ts = ts.
Proof.
  induction ts as [|d ts IH]; intros c H; [done|].
  inversion H as [|? ? Hd Hts]; subst. cbn [backfill_tasks].
  rewrite (backfill_task_complete now c d Hd). cbn [fst snd]. by rewrite IH.
Qed.

Lemma backfill_all_atom now ts v rest : ∀ c,
  (∀ s, v ≠ VStr s) →
  backfill_all now c ((JObj <$> ts) ++ JAtom v :: rest) = Raise TypeError.
Proof.
  induction ts as [|d ts IH]; intros c Hv.
  - cbn [fmap list_fmap app backfill_all]. unfold backfill, fill.
    destruct v as [| | |s]; try done. by destruct (Hv s).
  - rewrite fmap_cons. cbn [app backfill_all]. rewrite backfill_obj.
    cbn [mbind result_bind fst snd]. by rewrite IH.
Qed.

(** C5, as the code has it: no file, and a file that [json.load] rejects
    with [JSONDecodeError], both load as the empty list; any other
    exception of [open] or [json.load] is not caught, and [load_tasks]
    raises it. A file that parses to an array of objects loads as the same
    records in the same order, where every key a record had keeps its value
    and a missing [id], [priority], [created_at] or [completed_at] holds
    its default (a clock reading, "Medium", a clock reading, [None]); no
    other key is added. An array in which a number, a boolean or [null]
    comes before any other element that is not an object makes
    [load_tasks] raise [TypeError]. *)
Theorem load_tasks_cases (now : nat → instant) :
  load_tasks now Absent = Ok (JArr []) ∧
  load_tasks now Malformed = Ok (JArr []) ∧
  (∀ e, load_tasks now (Unreadable e) = Raise e) ∧
  (∀ ts : list task, ∃ ts' : list task,
    load_tasks now (Document (json_of_tasks ts)) = Ok (json_of_tasks ts') ∧
    length ts' = length ts ∧
    ∀ i d, ts !! i = Some d →
      ∃ d' c, ts' !! i = Some d' ∧
        ∀ k, d' !! k = match d !! k with
                       | Some v => Some v
                       | None => default_of now c d k
                       end) ∧
  (∀ (ts : list task) v rest, (∀ s, v ≠ VStr s) →
     load_tasks now (Document (JArr ((JObj <$> ts) ++ JAtom v :: rest))) =
     Raise TypeError).
Proof.
  split; [done|]. split; [done|]. split; [done|]. split.
  - intros ts. exists (backfill_tasks now 0 ts).
    split; [apply load_tasks_objs|].
    split; [apply backfill_tasks_length|].
    intros i d Hi.
    destruct (backfill_tasks_lookup now ts 0%nat i d Hi) as [c Hc].
    exists (backfill_task now c d).1, c. split; [done|].
    intros k. apply backfill_task_lookup.
  - intros ts v rest Hv. unfold load_tasks. cbn [iter mbind result_bind].
    by rewrite backfill_all_atom.
Qed.

(** C5 fails as stated: a file whose bytes are not UTF-8 does not parse,
    and [load_tasks] raises the [UnicodeDecodeError] of [json.load]; a file
    that parses to the array [[1]] is read without a decoding error, and
    [load_tasks] raises [TypeError] at ["id" not in task]. *)
Lemma load_tasks_raises_on_content :
  load_tasks clock0 (Unreadable UnicodeDecodeError) =
    Raise UnicodeDecodeError ∧
  load_tasks clock0 (Document (JArr [JAtom (VNum 1)])) = Raise TypeError.
Proof. split; reflexivity. Qed.



(** C6: a list of complete records that has been written to the file is
    loaded back as the same list. A dict is a finite map, so equality does
    not see the order of the fields. *)
Theorem save_load_roundtrip (now : nat → instant) (ts : list task) :
  Forall (fun d => complete d = true) ts →
  load_tasks now (save_tasks Written ts) = Ok (json_of_tasks ts) ∧
  tasks <$> start now (save_tasks Written ts) = Some ts.
Proof.
  intros H. unfold start, save_tasks.
  rewrite load_tasks_objs, backfill_tasks_complete by done.
  split; [done|]. rewrite tasks_of_json_of_tasks. done.
Qed.

(** ** The loops that update the first match *)

Lemma has_id_getitem task_id (d : task) x :
  d !! "id" = Some x → has_id task_id d = py_eq x task_id.
Proof. unfold has_id. by intros ->. Qed.

Lemma first_match_here task_id d rest :
  has_id task_id d = true → first_match task_id (d :: rest) 0 d.
Proof. intros H. split; [done|]. split; [done|]. intros j y Hj. lia. Qed.

Lemma first_match_later task_id d0 rest i d :
  is_Some (d0 !! "id") → has_id task_id d0 = false →
  first_match task_id rest i d → first_match task_id (d0 :: rest) (S i) d.
Proof.
  intros Hid H0 (Hi & Hd & Hbefore). split; [done|]. split; [done|].
  intros j y Hj Hy. destruct j as [|j]; simpl in Hy.
  - by injection Hy as <-.
  - apply (Hbefore j); [lia|done].
Qed.

Lemma first_match_inv task_id d0 rest i d :
  first_match task_id (d0 :: rest) i d →
  (i = 0%nat ∧ d = d0 ∧ has_id task_id d0 = true) ∨
  (∃ i', i = S i' ∧ is_Some (d0 !! "id") ∧ has_id task_id d0 = false ∧
         first_match task_id rest i' d).
Proof.
  intros (Hi & Hd & Hbefore). destruct i as [|i'].
  - left. simpl in Hi. injection Hi as ->. done.
  - right. exists i'. destruct (Hbefore 0%nat d0) as [? ?]; [lia|done|].
    split; [done|]. split; [done|]. split; [done|].
    split; [done|]. split; [done|].
    intros j y Hj Hy. apply (Hbefore (S j)); [lia|done].
Qed.

(** When [toggle] returns, it has rewritten the first match, or there was
    none and the list is the same. *)
Lemma toggle_Ok t task_id ts : ∀ ts',
  toggle t task_id ts = Ok ts' →
  (ts' = ts ∧ Forall (fun d => has_id task_id d = false) ts) ∨
  (∃ i d v, first_match task_id ts i d ∧ d !! "done" = Some v ∧
            ts' = <[i := toggled t v d]> ts).
Proof.
  induction ts as [|d0 rest IH]; intros ts' H; simpl in H.
  - injection H as <-. left. done.
  - unfold getitem in H. destruct (d0 !! "id") as [x|] eqn:Ex; [|done].
    cbn [mbind result_bind] in H.
    destruct (py_eq x task_id) eqn:Em.
    + destruct (d0 !! "done") as [v|] eqn:Ev; [|done].
      cbn [mbind result_bind] in H. injection H as <-.
      right. exists 0%nat, d0, v. split; [|done].
      apply first_match_here. by rewrite (has_id_getitem _ _ x).
    + destruct (toggle t task_id rest) as [rest'|e] eqn:Er; [|done].
      cbn [mbind result_bind] in H. injection H as <-.
      assert (has_id task_id d0 = false) as H0
        by by rewrite (has_id_getitem _ _ x).
      destruct (IH rest' eq_refl) as [[-> Hall]|(i & d & v & Hf & Hv & ->)].
      * left. split; [done|]. by constructor.
      * right. exists (S i), d, v. split; [|done].
        apply first_match_later; [by eexists|done|done].
Qed.

(** [toggle] returns when it finds a match that carries [done]. *)
Lemma toggle_first_match t task_id ts : ∀ i d v,
  first_match task_id ts i d → d !! "done" = Some v →
  toggle t task_id ts = Ok (<[i := toggled t v d]> ts).
Proof.
  induction ts as [|d0 rest IH]; intros i d v Hf Hv.
  - destruct Hf as (Hi & _). done.
  - apply first_match_inv in Hf as [(-> & -> & H0)|(i' & -> & [x Hx] & H0 & Hf)].
    + simpl. unfold getitem, has_id in *.
      destruct (d0 !! "id") as [x|]; [|done]. cbn [mbind result_bind].
      rewrite H0, Hv. done.
    + simpl. unfold getitem. rewrite Hx. cbn [mbind result_bind].
      rewrite (has_id_getitem _ _ x Hx) in H0. rewrite H0.
      rewrite (IH i' d v Hf Hv). done.
Qed.

(** The same two facts for [edit]. *)
Lemma edit_Ok task_id new_text new_priority ts : ∀ ts',
  edit task_id new_text new_priority ts = Ok ts' →
  (ts' = ts ∧ Forall (fun d => has_id task_id d = false) ts) ∨
  (∃ i d, first_match task_id ts i d ∧
          ts' = <[i := edited new_text new_priority d]> ts).
Proof.
  induction ts as [|d0 rest IH]; intros ts' H; simpl in H.
  - injection H as <-. left. done.
  - unfold getitem in H. destruct (d0 !! "id") as [x|] eqn:Ex; [|done].
    cbn [mbind result_bind] in H.
    destruct (py_eq x task_id) eqn:Em.
    + injection H as <-. right. exists 0%nat, d0. split; [|done].
      apply first_match_here. by rewrite (has_id_getitem _ _ x).
    + destruct (edit task_id new_text new_priority rest) as [rest'|e] eqn:Er;
        [|done].
      cbn [mbind result_bind] in H. injection H as <-.
      assert (has_id task_id d0 = false) as H0
        by by rewrite (has_id_getitem _ _ x).
      destruct (IH rest' eq_refl) as [[-> Hall]|(i & d & Hf & ->)].
      * left. split; [done|]. by constructor.
      * right. exists (S i), d. split; [|done].
        apply first_match_later; [by eexists|done|done].
Qed.

Lemma step_tasks a w s :
  tasks (step a w s) =
  match apply a (tasks s) with Ok ts => ts | Raise _ => tasks s end.
Proof.
  destruct a; cbn [step apply].
  - unfold add_handler, add. by destruct (String.eqb _ _).
  - unfold toggle_task_completion. by destruct (toggle _ _ _).
  - unfold edit_task. by destruct (edit _ _ _ _).
  - unfold delete_task. by destruct (delete _ _).
  - unfold clear_handler. by destruct (clear_completed _).
  - done.
Qed.

Lemma edited_lookup new_text new_priority (d : task) k :
  k ≠ "task" → k ≠ "priority" →
  edited new_text new_priority d !! k = d !! k.
Proof. intros. unfold edited. by rewrite !lookup_insert_ne. Qed.

Lemma first_match_not_absent task_id ts i d :
  first_match task_id ts i d →
  ¬ Forall (fun d => has_id task_id d = false) ts.
Proof.
  intros (Hi & Hd & _) Hall.
  rewrite Forall_lookup in Hall. specialize (Hall i d Hi). congruence.
Qed.

(** ** edit_task *)

(** C7: after [edit_task] the list has the same length; every record is at
    its place and agrees with the old one on every field but [task] and
    [priority] (so on [id], [done], [created_at] and [completed_at]); a
    record whose id is not the given one is the old record; and when no
    record has the given id the list is the old list. This covers the call
    that raises, which changes nothing. *)
Theorem edit_task_frame (w : write) (task_id : value)
    (new_text new_priority : string) (s : session) :
  let ts := tasks s in
  let ts' := tasks (step (Edit task_id new_text new_priority) w s) in
  length ts' = length ts ∧
  (∀ i d, ts !! i = Some d →
     ∃ d', ts' !! i = Some d' ∧
       (∀ k, k ≠ "task" → k ≠ "priority" → d' !! k = d !! k) ∧
       (has_id task_id d = false → d' = d)) ∧
  (Forall (fun d => has_id task_id d = false) ts → ts' = ts).
Proof.
  cbv zeta. rewrite step_tasks. cbn [apply].
  destruct (edit task_id new_text new_priority (tasks s)) as [ts'|e] eqn:E.
  2:{ split; [done|]. split; [|done]. intros i d Hi. by exists d. }
  apply edit_Ok in E as [[-> _]|(i & d & Hf & ->)].
  { split; [done|]. split; [|done]. intros i d Hi. by exists d. }
  split; [apply length_insert|]. split.
  - intros j dj Hj. destruct (decide (j = i)) as [->|Hne].
    + destruct Hf as (Hi & Hd & _).
      assert (dj = d) as -> by congruence.
      exists (edited new_text new_priority d).
      split; [apply list_lookup_insert_eq; by eapply lookup_lt_Some|].
      split; [intros; by apply edited_lookup | congruence].
    + exists dj. by rewrite list_lookup_insert_ne.
  - intros Hall. by apply first_match_not_absent in Hf.
Qed.

(** ** toggle_task_completion *)

Lemma toggled_id t v (d : task) : toggled t v d !! "id" = d !! "id".
Proof. unfold toggled. by rewrite !lookup_insert_ne. Qed.

Lemma first_match_insert task_id ts i d d' :
  first_match task_id ts i d → d' !! "id" = d !! "id" →
  first_match task_id (<[i := d']> ts) i d'.
Proof.
  intros (Hi & Hd & Hbefore) Hid. split; [|split].
  - apply list_lookup_insert_eq. by eapply lookup_lt_Some.
  - unfold has_id in *. by rewrite Hid.
  - intros j y Hj Hy. rewrite list_lookup_insert_ne in Hy by lia.
    by apply (Hbefore j).
Qed.

Lemma toggled_toggled t1 t2 v (d : task) :
  toggled t2 (VBool (negb (truthy v))) (toggled t1 v d) =
  <["completed_at" := if truthy v then VStr (isoformat t2) else VNone]>
    (<["done" := VBool (truthy v)]> d).
Proof.
  unfold toggled. cbn [truthy]. rewrite negb_involutive.
  apply map_eq. intros k. rewrite !lookup_insert.
  repeat case_decide; congruence.
Qed.

(** C3, as the code has it: two toggles of an id whose first match carries
    [done] both return; afterwards that record holds the truth value it had
    in [done], and in [completed_at] the time of the second toggle when it
    was done and [None] when it was not; its other fields and the other
    records are as before. A record that was not done and had no
    completion time is the old record again. *)
Theorem toggle_twice (t1 t2 : instant) (task_id : value) (ts : list task)
    (i : nat) (d : task) (v : value) :
  first_match task_id ts i d → d !! "done" = Some v →
  ∃ ts1,
    toggle t1 task_id ts = Ok ts1 ∧
    toggle t2 task_id ts1 =
      Ok (<[i := <["completed_at" :=
                     if truthy v then VStr (isoformat t2) else VNone]>
                   (<["done" := VBool (truthy v)]> d)]> ts) ∧
    (v = VBool false → d !! "completed_at" = Some VNone →
     toggle t2 task_id ts1 = Ok ts).
Proof.
  intros Hf Hv. exists (<[i := toggled t1 v d]> ts).
  split; [by apply toggle_first_match|].
  assert (toggle t2 task_id (<[i := toggled t1 v d]> ts) =
          Ok (<[i := <["completed_at" :=
                         if truthy v then VStr (isoformat t2) else VNone]>
                       (<["done" := VBool (truthy v)]> d)]> ts)) as Htwice.
  { rewrite (toggle_first_match t2 task_id _ i (toggled t1 v d)
               (VBool (negb (truthy v)))).
    - by rewrite list_insert_insert_eq, toggled_toggled.
    - apply (first_match_insert _ _ _ d); [done|apply toggled_id].
    - unfold toggled. by rewrite lookup_insert_ne, lookup_insert_eq. }
  split; [done|].
  intros -> Hc. rewrite Htwice. cbn [truthy]. f_equal.
  apply list_insert_id. destruct Hf as (-> & _). f_equal.
  rewrite (insert_id d "done") by done. symmetry. by apply insert_id.
Qed.

Lemma toggle_twice_witness :
  first_match (VNum 1704067200000002) [task_milk; task_rent] 1 task_rent ∧
  task_rent !! "done" = Some (VBool true) ∧
  ∃ ts1,
    toggle (clock0 6) (VNum 1704067200000002) [task_milk; task_rent] = Ok ts1 ∧
    toggle (clock0 7) (VNum 1704067200000002) ts1 =
      Ok (<[1%nat := <["completed_at" :=
                     if truthy (VBool true) then VStr (isoformat (clock0 7))
                     else VNone]>
                   (<["done" := VBool (truthy (VBool true))]> task_rent)]>
            [task_milk; task_rent]) ∧
    (VBool true = VBool false → task_rent !! "completed_at" = Some VNone →
     toggle (clock0 7) (VNum 1704067200000002) ts1 = Ok [task_milk; task_rent]).
Proof.
  assert (first_match (VNum 1704067200000002) [task_milk; task_rent] 1
            task_rent) as Hf.
  { split; [reflexivity|]. split; [vm_compute; reflexivity|].
    intros j y Hj Hy. destruct j as [|j]; [|lia].
    injection Hy as <-. split; [by eexists | vm_compute; reflexivity]. }
  split; [exact Hf|]. split; [reflexivity|].
  exact (toggle_twice (clock0 6) (clock0 7) (VNum 1704067200000002)
           [task_milk; task_rent] 1 task_rent (VBool true) Hf eq_refl).
Defined.

(** C3 fails as stated: a task completed at second 5 and toggled at seconds
    6 and 7 is done again, with the completion time of second 7. *)
Lemma toggle_twice_restamps :
  field [task_rent] 0 "done" = Some (VBool true) ∧
  field [task_rent] 0 "completed_at" = Some (VStr "2024-01-01T00:00:05") ∧
  (ts1 ← toggle (clock0 6) (VNum 1704067200000002) [task_rent];
   ts2 ← toggle (clock0 7) (VNum 1704067200000002) ts1;
   Ok (field ts2 0 "done", field ts2 0 "completed_at")) =
  Ok (Some (VBool true), Some (VStr "2024-01-01T00:00:07")).
Proof. vm_compute. repeat split; reflexivity. Qed.

(** ** delete_task and the clear button *)

Lemma delete_Ok task_id ts : ∀ ts',
  delete task_id ts = Ok ts' →
  ts' = filter (fun d => has_id task_id d = false) ts.
Proof.
  induction ts as [|d0 rest IH]; intros ts' H; simpl in H.
  - by injection H as <-.
  - unfold getitem in H. destruct (d0 !! "id") as [x|] eqn:Ex; [|done].
    cbn [mbind result_bind] in H.
    destruct (delete task_id rest) as [rest'|e]; [|done].
    cbn [mbind result_bind] in H. injection H as <-.
    rewrite filter_cons, (has_id_getitem _ _ x Ex), (IH rest' eq_refl).
    destruct (py_eq x task_id); by case_decide.
Qed.

Lemma delete_returns task_id ts :
  Forall (fun d => is_Some (d !! "id")) ts → ∃ ts', delete task_id ts = Ok ts'.
Proof.
  induction 1 as [|d0 rest [x Hx] _ [rest' IH]]; [by eexists|].
  simpl. unfold getitem. rewrite Hx, IH. by eexists.
Qed.

Lemma clear_completed_Ok ts : ∀ ts',
  clear_completed ts = Ok ts' → ts' `sublist_of` ts.
Proof.
  induction ts as [|d0 rest IH]; intros ts' H; simpl in H.
  - by injection H as <-.
  - destruct (getitem d0 "done") as [v|]; [|done].
    cbn [mbind result_bind] in H.
    destruct (clear_completed rest) as [rest'|e]; [|done].
    cbn [mbind result_bind] in H. injection H as <-.
    destruct (truthy v).
    + apply sublist_cons. by apply IH.
    + apply sublist_skip. by apply IH.
Qed.

Lemma filter_all {A} (P : A → Prop) `{!∀ x, Decision (P x)} (l : list A) :
  Forall P l → filter P l = l.
Proof.
  induction 1 as [|x l Hx _ IH]; [done|].
  by rewrite filter_cons_True, IH.
Qed.

(** C10, as the code has it: in a list where every record carries an id,
    [delete_task] leaves exactly the records whose id is not the given
    one, in their order; none of them has the given id, and a list without
    a match is left as it is. *)
Theorem delete_task_spec (w : write) (task_id : value) (s : session) :
  Forall (fun d => is_Some (d !! "id")) (tasks s) →
  let ts' := tasks (step (Delete task_id) w s) in
  ts' = filter (fun d => has_id task_id d = false) (tasks s) ∧
  Forall (fun d => has_id task_id d = false) ts' ∧
  ts' `sublist_of` tasks s ∧
  (Forall (fun d => has_id task_id d = false) (tasks s) → ts' = tasks s).
Proof.
  intros Hids. cbv zeta. rewrite step_tasks. cbn [apply].
  destruct (delete_returns task_id _ Hids) as [ts' E]. rewrite E.
  apply delete_Ok in E as ->.
  split; [done|]. split; [|split].
  - apply Forall_forall. intros d Hd. by apply list_elem_of_filter in Hd as [? _].
  - apply sublist_filter.
  - intros Hall. by apply filter_all.
Qed.

Lemma delete_task_spec_witness :
  Forall (fun d : task => is_Some (d !! "id")) [task_milk; task_rent] ∧
  tasks (step (Delete (VNum 1704067200000000)) Written
           {| tasks := [task_milk; task_rent]; disk := Absent |}) =
  filter (fun d => has_id (VNum 1704067200000000) d = false)
    [task_milk; task_rent].
Proof.
  assert (Forall (fun d : task => is_Some (d !! "id")) [task_milk; task_rent])
    as Hids by (repeat constructor; by eexists).
  split; [exact Hids|].
  exact (proj1 (delete_task_spec Written (VNum 1704067200000000)
                  {| tasks := [task_milk; task_rent]; disk := Absent |} Hids)).
Defined.

(** C10 fails as stated: with a record that has no id in the list,
    [delete_task] raises [KeyError] and the record with the given id
    stays. The dashboard counts such a list and the page sorts it and
    draws the first task, whose delete button makes the call. *)
Lemma delete_task_raises_without_id :
  has_id (VNum 1704067200000000) task_milk = true ∧
  statistics [task_milk; task_anon] = Ok (2, 2, 0) ∧
  @sort_tasks ascii_lower [task_milk; task_anon] "Priority" =
    Ok [task_milk; task_anon] ∧
  delete (VNum 1704067200000000) [task_milk; task_anon] =
    Raise (KeyError "id") ∧
  has_id (VNum 1704067200000000) <$>
    tasks (step (Delete (VNum 1704067200000000)) Written
             {| tasks := [task_milk; task_anon]; disk := Absent |}) =
  [true; false].
Proof. vm_compute. repeat split; reflexivity. Qed.

(** ** The invariant: done exactly when a completion time is present *)

Lemma Forall_sublist {A} (P : A → Prop) (l k : list A) :
  l `sublist_of` k → Forall P k → Forall P l.
Proof.
  intros Hs. rewrite !Forall_forall. intros H x Hx.
  apply H. by eapply elem_of_sublist.
Qed.

Lemma consistent_toggled t v (d : task) : consistent (toggled t v d) = true.
Proof.
  unfold consistent, is_done, has_completed_at, toggled.
  rewrite lookup_insert_ne, !lookup_insert_eq by done.
  apply bool_decide_eq_true. by destruct (truthy v).
Qed.

Lemma consistent_edited new_text new_priority (d : task) :
  consistent (edited new_text new_priority d) = consistent d.
Proof.
  unfold consistent, is_done, has_completed_at.
  by rewrite !edited_lookup.
Qed.

Lemma consistent_create_task t_id t_created text priority :
  consistent (create_task t_id t_created text priority) = true.
Proof.
  unfold consistent, is_done, has_completed_at, create_task.
  by simplify_map_eq.
Qed.

Lemma consistent_backfill_task now c (d : task) :
  consistent (backfill_task now c d).1 = consistent d.
Proof.
  unfold consistent, is_done, has_completed_at.
  rewrite !backfill_task_lookup.
  destruct (d !! "done"), (d !! "completed_at"); done.
Qed.

Lemma apply_consistent a ts ts' :
  imports_consistent a → apply a ts = Ok ts' →
  Forall (fun d => consistent d = true) ts →
  Forall (fun d => consistent d = true) ts'.
Proof.
  intros Himp E Hts. destruct a; simpl in E, Himp.
  - injection E as <-. unfold add. destruct (String.eqb _ _); [done|].
    apply Forall_app_2; [done|]. constructor; [|done].
    apply consistent_create_task.
  - apply toggle_Ok in E as [[-> _]|(i & d & v & _ & _ & ->)]; [done|].
    apply Forall_insert; [done|]. apply consistent_toggled.
  - apply edit_Ok in E as [[-> _]|(i & d & (Hi & _) & ->)]; [done|].
    apply Forall_insert; [done|]. rewrite consistent_edited.
    by eapply (Forall_lookup_1 _ _ _ _ Hts).
  - apply delete_Ok in E as ->.
    eapply Forall_sublist; [apply sublist_filter|done].
  - eapply Forall_sublist; [by apply clear_completed_Ok|done].
  - injection E as <-. by apply Forall_app_2.
Qed.

Lemma step_consistent a w s :
  imports_consistent a →
  Forall (fun d => consistent d = true) (tasks s) →
  Forall (fun d => consistent d = true) (tasks (step a w s)).
Proof.
  intros Himp Hts. rewrite step_tasks.
  destruct (apply a (tasks s)) as [ts'|e] eqn:E; [|done].
  by eapply apply_consistent.
Qed.

Lemma backfill_tasks_consistent now ts : ∀ c,
  consistent <$> backfill_tasks now c ts = consistent <$> ts.
Proof.
  induction ts as [|d ts IH]; intros c; [done|].
  cbn [backfill_tasks fmap list_fmap].
  rewrite consistent_backfill_task. f_equal. apply IH.
Qed.

(** C1, as the code has it: add, toggle, edit, delete and clear keep the
    invariant of every record, and so does an import of records that
    satisfy it, along any sequence of actions; [load_tasks] returns the
    empty list for a missing or unparsable file, and for an array of
    objects it returns records that satisfy the invariant exactly where the
    records of the file do, a missing [completed_at] counting as absent. *)
Theorem done_iff_completed_at :
  (∀ (acts : list (action * write)) (s : session),
     Forall (fun aw => imports_consistent aw.1) acts →
     Forall (fun d => consistent d = true) (tasks s) →
     Forall (fun d => consistent d = true) (tasks (run acts s))) ∧
  (∀ now ts, ∃ ts',
     load_tasks now (Document (json_of_tasks ts)) = Ok (json_of_tasks ts') ∧
     consistent <$> ts' = consistent <$> ts) ∧
  (∀ now, load_tasks now Absent = Ok (json_of_tasks []) ∧
          load_tasks now Malformed = Ok (json_of_tasks [])).
Proof.
  split; [|split].
  - intros acts. induction acts as [|[a w] acts IH]; intros s Hacts Hs; [done|].
    inversion Hacts as [|? ? Ha Hrest]; subst. simpl.
    apply IH; [done|]. by apply step_consistent.
  - intros now ts. exists (backfill_tasks now 0 ts).
    split; [apply load_tasks_objs | apply backfill_tasks_consistent].
  - done.
Qed.

Lemma done_iff_completed_at_witness :
  Forall (fun aw : action * write => imports_consistent aw.1)
    [(Toggle (clock0 6) (VNum 1704067200000000), Written);
     (ImportBatch [task_rent], Written);
     (ClearCompleted, WriteFailed Malformed)] ∧
  Forall (fun d => consistent d = true) [task_milk] ∧
  Forall (fun d => consistent d = true)
    (tasks (run [(Toggle (clock0 6) (VNum 1704067200000000), Written);
                 (ImportBatch [task_rent], Written);
                 (ClearCompleted, WriteFailed Malformed)]
              {| tasks := [task_milk]; disk := Absent |})).
Proof.
  assert (Forall (fun aw : action * write => imports_consistent aw.1)
    [(Toggle (clock0 6) (VNum 1704067200000000), Written);
     (ImportBatch [task_rent], Written);
     (ClearCompleted, WriteFailed Malformed)]) as Hacts.
  { repeat constructor. }
  assert (Forall (fun d => consistent d = true) [task_milk]) as Hs.
  { repeat constructor. }
  split; [exact Hacts|]. split; [exact Hs|].
  exact (proj1 done_iff_completed_at _
           {| tasks := [task_milk]; disk := Absent |} Hacts Hs).
Defined.

(** C1 fails as stated: a file record that is done and has no
    [completed_at] is loaded done with [completed_at] [None], and an
    imported record of that kind is appended as it is. *)
Lemma load_and_import_break_invariant :
  (s ← start clock0
         (Document (json_of_tasks
            [<["done" := VBool true]> task_bare]));
   Some (is_done <$> tasks s, field (tasks s) 0 "completed_at",
         consistent <$> tasks s)) =
  Some ([true], Some VNone, [false]) ∧
  consistent <$> [task_milk] = [true] ∧
  consistent <$>
    tasks (step (ImportBatch [<["done" := VBool true]> task_bare]) Written
             {| tasks := [task_milk]; disk := Absent |}) = [true; false].
Proof. vm_compute. repeat split; reflexivity. Qed.

(** ** Distinct ids *)

Lemma elem_of_id_keys x ts :
  canon x ∈ id_keys ts ↔ ∃ d, d ∈ ts ∧ has_id x d = true.
Proof.
  unfold id_keys. rewrite list_elem_of_omap. split.
  - intros (d & Hd & E). exists d. split; [done|].
    unfold has_id. destruct (d !! "id") as [y|]; [|done].
    simpl in E. injection E as E. unfold py_eq. by apply bool_decide_eq_true.
  - intros (d & Hd & E). exists d. split; [done|].
    unfold has_id in E. destruct (d !! "id") as [y|]; [|done].
    simpl. f_equal. unfold py_eq in E. by apply bool_decide_eq_true in E.
Qed.

Lemma unique_ids_cons d ts :
  unique_ids (d :: ts) ↔
  (∀ x, d !! "id" = Some x → Forall (fun d' => has_id x d' = false) ts) ∧
  unique_ids ts.
Proof.
  split.
  - intros H. split.
    + intros x Hx. apply Forall_lookup. intros j d' Hj.
      destruct (has_id x d') eqn:E; [|done].
      by specialize (H 0%nat (S j) d d' x eq_refl Hj Hx E).
    + intros i j d1 d2 x Hi Hj Hx E.
      by specialize (H (S i) (S j) d1 d2 x Hi Hj Hx E) as [= ->].
  - intros [Hd Hts] i j d1 d2 x Hi Hj Hx E.
    destruct i as [|i], j as [|j]; simpl in Hi, Hj; [done| | |].
    + injection Hi as <-. specialize (Hd x Hx).
      rewrite Forall_lookup in Hd. specialize (Hd j d2 Hj). congruence.
    + injection Hj as <-.
      unfold has_id in E. destruct (d !! "id") as [y|] eqn:Ey; [|done].
      specialize (Hd y eq_refl). rewrite Forall_lookup in Hd.
      specialize (Hd i d1 Hi). unfold has_id in Hd. rewrite Hx in Hd.
      rewrite py_eq_sym in Hd. congruence.
    + f_equal. by eapply Hts.
Qed.

Lemma unique_ids_NoDup ts : unique_ids ts ↔ NoDup (id_keys ts).
Proof.
  induction ts as [|d ts IH].
  - split; [constructor|]. intros _ i j d d' x Hi. done.
  - rewrite unique_ids_cons, IH. unfold id_keys at 2. cbn [omap list_omap].
    fold (id_keys ts). destruct (d !! "id") as [x|] eqn:Ex; simpl.
    + rewrite NoDup_cons, elem_of_id_keys. split.
      * intros [Hd Hts]. split; [|done]. intros (d' & Hd' & E).
        specialize (Hd x eq_refl). rewrite Forall_forall in Hd.
        specialize (Hd d' Hd'). congruence.
      * intros [Hd Hts]. split; [|done]. intros y [= <-].
        apply Forall_forall. intros d' Hd'.
        destruct (has_id x d') eqn:E; [|done]. destruct Hd. by exists d'.
    + split; [by intros [_ ?]|]. intros H. split; [done|done].
Qed.

Lemma id_keys_insert ts : ∀ i (d d' : task),
  ts !! i = Some d → d' !! "id" = d !! "id" →
  id_keys (<[i := d']> ts) = id_keys ts.
Proof.
  induction ts as [|d0 ts IH]; intros i d d' Hi Hid; [done|].
  destruct i as [|i]; simpl in Hi.
  - injection Hi as ->. unfold id_keys. simpl. by rewrite Hid.
  - specialize (IH i d d' Hi Hid). unfold id_keys in *. simpl.
    destruct (canon <$> d0 !! "id"); [f_equal|]; exact IH.
Qed.

Lemma id_keys_sublist ts' ts :
  ts' `sublist_of` ts → id_keys ts' `sublist_of` id_keys ts.
Proof.
  unfold id_keys. induction 1 as [|d l k _ IH|d l k _ IH]; simpl.
  - constructor.
  - destruct (canon <$> d !! "id"); [by apply sublist_skip|done].
  - destruct (canon <$> d !! "id"); [by apply sublist_cons|done].
Qed.

Lemma id_keys_create_task t_id t_created text priority :
  id_keys [create_task t_id t_created text priority] = [VNum (timestamp t_id)].
Proof. unfold id_keys, create_task. simpl. by rewrite lookup_insert_eq. Qed.

Lemma edited_id new_text new_priority (d : task) :
  edited new_text new_priority d !! "id" = d !! "id".
Proof. by apply edited_lookup. Qed.

Lemma apply_unique a ts ts' :
  fresh a ts → apply a ts = Ok ts' →
  NoDup (id_keys ts) → NoDup (id_keys ts').
Proof.
  intros Hf E Hts. destruct a; simpl in E, Hf.
  - injection E as <-. unfold add.
    destruct (String.eqb_spec (strip new_task) ""); [done|].
    specialize (Hf ltac:(done)).
    unfold id_keys. rewrite omap_app. fold (id_keys ts).
    fold (id_keys [create_task t_id t_created (strip new_task) priority]).
    rewrite id_keys_create_task. apply NoDup_app. split; [done|].
    split; [|apply NoDup_singleton].
    intros x Hx Hx'. apply list_elem_of_singleton in Hx' as ->. done.
  - apply toggle_Ok in E as [[-> _]|(i & d & v & (Hi & _) & _ & ->)]; [done|].
    by rewrite (id_keys_insert _ _ d) by (done || apply toggled_id).
  - apply edit_Ok in E as [[-> _]|(i & d & (Hi & _) & ->)]; [done|].
    by rewrite (id_keys_insert _ _ d) by (done || apply edited_id).
  - apply delete_Ok in E as ->.
    eapply sublist_NoDup; [done|]. apply id_keys_sublist, sublist_filter.
  - eapply sublist_NoDup; [done|].
    by apply id_keys_sublist, clear_completed_Ok.
  - injection E as <-. unfold import_batch, id_keys. rewrite omap_app.
    destruct Hf as [Himp Hdisj]. apply NoDup_app. split; [done|].
    split; [|done]. intros x Hx Hx'. by apply (Hdisj x).
Qed.

Lemma step_unique a w s :
  fresh a (tasks s) → unique_ids (tasks s) → unique_ids (tasks (step a w s)).
Proof.
  rewrite !unique_ids_NoDup, step_tasks. intros Hf Hs.
  destruct (apply a (tasks s)) as [ts'|e] eqn:E; [|done].
  by eapply apply_unique.
Qed.

(** C8, as the code has it: along a sequence of actions in which every
    clock reading taken as the id of an added task differs from the ids in
    the list, and every imported batch has ids distinct from each other and
    from those in the list, records at different places keep different
    ids. The code checks neither condition. *)
Theorem ids_stay_unique (acts : list (action * write)) : ∀ s : session,
  unique_ids (tasks s) → all_fresh acts s → unique_ids (tasks (run acts s)).
Proof.
  induction acts as [|[a w] acts IH]; intros s Hs Hacts; [done|].
  destruct Hacts as [Ha Hrest]. simpl. apply IH; [|done].
  by apply step_unique.
Qed.

Lemma ids_stay_unique_witness :
  unique_ids [task_milk] ∧
  all_fresh
    [(Add (clock0 2) (clock0 3) "Pay rent" "Low", Written);
     (ImportBatch [task_bare], Written);
     (Delete (VNum 1704067200000000), Written)]
    {| tasks := [task_milk]; disk := Absent |} ∧
  unique_ids
    (tasks (run
       [(Add (clock0 2) (clock0 3) "Pay rent" "Low", Written);
        (ImportBatch [task_bare], Written);
        (Delete (VNum 1704067200000000), Written)]
       {| tasks := [task_milk]; disk := Absent |})).
Proof.
  assert (unique_ids [task_milk]) as Hs.
  { apply unique_ids_NoDup. apply (bool_decide_unpack _). vm_compute. done. }
  assert (all_fresh
    [(Add (clock0 2) (clock0 3) "Pay rent" "Low", Written);
     (ImportBatch [task_bare], Written);
     (Delete (VNum 1704067200000000), Written)]
    {| tasks := [task_milk]; disk := Absent |}) as Hacts.
  { split; [|split; [split|]].
    - intros _. apply (bool_decide_unpack _). vm_compute. done.
    - apply (bool_decide_unpack _). vm_compute. done.
    - intros x Hx. vm_compute in Hx. by apply elem_of_nil in Hx.
    - done. }
  split; [exact Hs|]. split; [exact Hacts|].
  exact (ids_stay_unique _ {| tasks := [task_milk]; disk := Absent |} Hs Hacts).
Defined.

(** C8 fails as stated: importing a file that holds a record of the list,
    such as the file the export button wrote, leaves two records with one
    id. *)
Lemma import_batch_repeats_id :
  id_keys [task_milk] = [VNum 1704067200000000] ∧
  id_keys (tasks (step (ImportBatch [task_milk]) Written
                    {| tasks := [task_milk]; disk := Absent |})) =
  [VNum 1704067200000000; VNum 1704067200000000].
Proof. vm_compute. repeat split; reflexivity. Qed.

Lemma save_load_roundtrip_witness :
  Forall (fun d => complete d = true) [task_milk; task_rent] ∧
  load_tasks clock0 (save_tasks Written [task_milk; task_rent]) =
    Ok (json_of_tasks [task_milk; task_rent]) ∧
  tasks <$> start clock0 (save_tasks Written [task_milk; task_rent]) =
    Some [task_milk; task_rent].
Proof.
  assert (Forall (fun d => complete d = true) [task_milk; task_rent]) as H.
  { repeat constructor. }
  split; [exact H|].
  exact (save_load_roundtrip clock0 [task_milk; task_rent] H).
Defined.

Lemma load_tasks_cases_witness :
  ∃ ts' : list task,
    load_tasks clock0 (Document (json_of_tasks [task_bare])) =
      Ok (json_of_tasks ts') ∧
    length ts' = length [task_bare] ∧
    ∀ i d, [task_bare] !! i = Some d →
      ∃ d' c, ts' !! i = Some d' ∧
        ∀ k, d' !! k = match d !! k with
                       | Some v => Some v
                       | None => default_of clock0 c d k
                       end.
Proof.
  exact (proj1 (proj2 (proj2 (proj2 (load_tasks_cases clock0)))) [task_bare]).
Defined.


Lemma edit_task_frame_witness :
  ∃ d', tasks (step (Edit (VNum 1704067200000002) "Pay the rent" "High")
                 Written {| tasks := [task_milk; task_rent]; disk := Absent |})
          !! 1%nat = Some d' ∧
    (∀ k, k ≠ "task" → k ≠ "priority" → d' !! k = task_rent !! k) ∧
    (has_id (VNum 1704067200000002) task_rent = false → d' = task_rent).
Proof.
  exact (proj1 (proj2 (edit_task_frame Written (VNum 1704067200000002)
                         "Pay the rent" "High"
                         {| tasks := [task_milk; task_rent]; disk := Absent |}))
           1%nat task_rent eq_refl).
Defined.

(** ** The order of ISO texts *)










Example isoformat_of_texts :
  isoformat_of {| year := 2024; month := 1; day := 5; hour := 9;
                  minute := 3; second := 7; microsecond := 0 |} =
    "2024-01-05T09:03:07" ∧
  isoformat_of {| year := 2024; month := 1; day := 5; hour := 9;
                  minute := 3; second := 7; microsecond := 120 |} =
    "2024-01-05T09:03:07.000120".
Proof. vm_compute. repeat split; reflexivity. Qed.

(** ** Sorting *)

Section SortedFacts.
Context {A K : Type} (leb : K → K → bool) (key : A → K).
Hypothesis leb_total : ∀ a b, leb a b = true ∨ leb b a = true.
Hypothesis leb_trans :
  ∀ a b c, leb a b = true → leb b c = true → leb a c = true.

Lemma insert_by_perm x l : insert_by leb key x l ≡ₚ x :: l.
Proof.
  induction l as [|y l IH]; simpl; [done|].
  destruct (leb (key x) (key y)); [done|].
  rewrite IH. apply Permutation_swap.
Qed.

Lemma sorted_by_perm l : sorted_by leb key l ≡ₚ l.
Proof.
  induction l as [|x l IH]; simpl; [done|].
  by rewrite insert_by_perm, IH.
Qed.

Lemma insert_by_sorted x l :
  StronglySorted (fun a b => leb (key a) (key b) = true) l →
  StronglySorted (fun a b => leb (key a) (key b) = true)
    (insert_by leb key x l).
Proof.
  induction 1 as [|y l Hl IH Hy]; simpl.
  - repeat constructor.
  - destruct (leb (key x) (key y)) eqn:E.
    + constructor; [by constructor|]. constructor; [done|].
      eapply Forall_impl; [exact Hy|]. intros z Hz. by eapply leb_trans.
    + constructor; [done|].
      rewrite insert_by_perm. constructor; [|done].
      destruct (leb_total (key x) (key y)); congruence.
Qed.

Lemma sorted_by_sorted l :
  StronglySorted (fun a b => leb (key a) (key b) = true)
    (sorted_by leb key l).
Proof.
  induction l as [|x l IH]; simpl; [constructor|].
  by apply insert_by_sorted.
Qed.

(** A sort that never swaps two elements of [P] keeps their order: this
    is stability when [P] picks the elements of one key. *)
Section Stable.
Context (P : A → Prop) `{!∀ a, Decision (P a)}.
Hypothesis P_tied : ∀ a b, P a → P b → leb (key a) (key b) = true.


End Stable.

(** Sorting the decorated list and dropping the keys is sorting the list
    by the key. *)
Lemma insert_by_decorated x l :
  insert_by leb fst (key x, x) ((fun a => (key a, a)) <$> l) =
  (fun a => (key a, a)) <$> insert_by leb key x l.
Proof.
  induction l as [|y l IH]; [done|].
  rewrite fmap_cons. cbn [insert_by fst].
  destruct (leb (key x) (key y)); [done|]. by rewrite IH.
Qed.

Lemma sorted_by_decorated l :
  snd <$> sorted_by leb fst ((fun a => (key a, a)) <$> l) =
  sorted_by leb key l.
Proof.
  assert (sorted_by leb fst ((fun a => (key a, a)) <$> l) =
          (fun a => (key a, a)) <$> sorted_by leb key l) as ->.
  { induction l as [|x l IH]; [done|].
    rewrite fmap_cons. cbn [sorted_by].
    by rewrite IH, insert_by_decorated. }
  rewrite <- list_fmap_compose. apply list_fmap_id.
Qed.
End SortedFacts.


(** The order of the keys. *)

Lemma string_leb_trans s1 : ∀ s2 s3,
  String.leb s1 s2 = true → String.leb s2 s3 = true → String.leb s1 s3 = true.
Proof.
  unfold String.leb.
  induction s1 as [|c1 s1 IH]; intros [|c2 s2] [|c3 s3]; simpl; try done.
  unfold Ascii.compare.
  destruct (N.compare_spec (N_of_ascii c1) (N_of_ascii c2)) as [E12|L12|G12];
    destruct (N.compare_spec (N_of_ascii c2) (N_of_ascii c3)) as [E23|L23|G23];
    destruct (N.compare_spec (N_of_ascii c1) (N_of_ascii c3)) as [E13|L13|G13];
    try done; try lia; apply IH.
Qed.

Lemma string_leb_both s1 s2 :
  String.leb s1 s2 = true → String.leb s2 s1 = true → s1 = s2.
Proof. intros. by apply String.leb_antisym. Qed.

Lemma value_leb_canon a b : value_leb a b = value_leb (canon a) (canon b).
Proof. by destruct a, b. Qed.

Lemma value_leb_total a b : value_leb a b = true ∨ value_leb b a = true.
Proof.
  destruct a as [|x|x|s], b as [|y|y|t]; unfold value_leb; simpl;
    try (by left); try (by right);
    try (rewrite !Z.leb_le; lia).
  apply String.leb_total.
Qed.

Lemma value_leb_trans a b c :
  value_leb a b = true → value_leb b c = true → value_leb a c = true.
Proof.
  destruct a as [|x|x|s], b as [|y|y|t], c as [|z|z|u];
    unfold value_leb; simpl; try done;
    try (rewrite !Z.leb_le; lia).
  apply string_leb_trans.
Qed.

Lemma value_leb_both a b :
  value_leb a b = true → value_leb b a = true → py_eq a b = true.
Proof.
  unfold py_eq. rewrite bool_decide_eq_true.
  destruct a as [|x|x|s], b as [|y|y|t]; unfold value_leb; simpl; try done;
    try (rewrite !Z.leb_le; intros; f_equal; lia).
  intros. f_equal. by apply string_leb_both.
Qed.

Lemma py_eq_canon a b : py_eq a b = true → canon a = canon b.
Proof. unfold py_eq. by rewrite bool_decide_eq_true. Qed.

Lemma tuple_leb_total a b : tuple_leb a b = true ∨ tuple_leb b a = true.
Proof.
  unfold tuple_leb. rewrite (py_eq_sym b.1 a.1).
  destruct (py_eq a.1 b.1); apply value_leb_total.
Qed.

Lemma tuple_leb_trans a b c :
  tuple_leb a b = true → tuple_leb b c = true → tuple_leb a c = true.
Proof.
  unfold tuple_leb.
  destruct (py_eq a.1 b.1) eqn:Eab, (py_eq b.1 c.1) eqn:Ebc.
  - rewrite (py_eq_trans _ _ _ Eab Ebc). apply value_leb_trans.
  - intros _ H. destruct (py_eq a.1 c.1) eqn:Eac.
    + rewrite py_eq_sym in Eab.
      by rewrite (py_eq_trans _ _ _ Eab Eac) in Ebc.
    + by rewrite (value_leb_canon a.1), (py_eq_canon _ _ Eab),
        <- value_leb_canon.
  - intros H _. destruct (py_eq a.1 c.1) eqn:Eac.
    + rewrite py_eq_sym in Ebc.
      by rewrite (py_eq_trans _ _ _ Eac Ebc) in Eab.
    + by rewrite (value_leb_canon _ c.1), <- (py_eq_canon _ _ Ebc),
        <- value_leb_canon.
  - intros H1 H2. destruct (py_eq a.1 c.1) eqn:Eac.
    + rewrite (value_leb_canon _ c.1), <- (py_eq_canon _ _ Eac),
        <- value_leb_canon in H2.
      by rewrite (value_leb_both _ _ H1 H2) in Eab.
    + by eapply value_leb_trans.
Qed.





(** [py_sorted] on a list whose keys are all computed and can all be
    compared. *)
Lemma py_sorted_Ok key (kv : task → value * value) ts :
  Forall (fun d => key d = Ok (kv d)) ts →
  Forall (fun a => Forall (fun b => comparable (kv a) (kv b) = true) ts) ts →
  py_sorted key ts = Ok (sorted_by tuple_leb kv ts).
Proof.
  intros Hkey Hcmp. unfold py_sorted.
  assert (mapM (fun x => k ← key x; Ok (k, x)) ts =
          Ok ((fun d => (kv d, d)) <$> ts)) as ->.
  { clear Hcmp. induction Hkey as [|d ts Hd _ IH]; [done|].
    cbn [mapM]. rewrite Hd. cbn [mbind result_bind]. rewrite IH.
    reflexivity. }
  cbn [mbind result_bind].
  rewrite <- list_fmap_compose.
  assert (forallb (fun a => forallb (comparable a) (fst ∘ (fun d => (kv d, d)) <$> ts))
            (fst ∘ (fun d => (kv d, d)) <$> ts) = true) as ->.
  { apply forallb_forall. intros a [d [-> Hd]]%list_elem_of_In%list_elem_of_fmap.
    apply forallb_forall. intros b [d' [-> Hd']]%list_elem_of_In%list_elem_of_fmap.
    rewrite Forall_forall in Hcmp. specialize (Hcmp d Hd).
    rewrite Forall_forall in Hcmp. by apply Hcmp. }
  f_equal. apply sorted_by_decorated.
Qed.

Lemma sortable_fields d :
  sortable d = true →
  ∃ b p c t, d !! "done" = Some (VBool b) ∧ d !! "priority" = Some p ∧
             d !! "created_at" = Some (VStr c) ∧ d !! "task" = Some (VStr t).
Proof.
  unfold sortable. intros H.
  destruct (d !! "done") as [[|b| |]|]; try done.
  destruct (d !! "priority") as [p|]; try done.
  destruct (d !! "created_at") as [[| | |c]|]; try done.
  destruct (d !! "task") as [[| | |t]|]; try done.
  by exists b, p, c, t.
Qed.

Lemma sortable_is_done d b : d !! "done" = Some (VBool b) → is_done d = b.
Proof. unfold is_done. intros ->. by destruct b. Qed.



Lemma comparable_done x y (v w : value) :
  kind v = kind w → comparable (VBool x, v) (VBool y, w) = true.
Proof.
  intros E. unfold comparable. cbn [fst snd kind]. rewrite E.
  destruct (py_eq _ _); simpl; [apply Nat.eqb_refl|done].
Qed.

Lemma Forall_pairs {A} (P : A → A → Prop) (l : list A) :
  (∀ a b, P a b) → Forall (fun a => Forall (P a) l) l.
Proof. intros H. apply Forall_forall. intros a _. apply Forall_forall. auto. Qed.

Lemma sort_tasks_priority {L : StrLower} ts :
  Forall (fun d => sortable d = true) ts →
  sort_tasks ts "Priority" = Ok (sorted_by tuple_leb priority_tuple ts).
Proof.
  intros H. unfold sort_tasks. cbn [String.eqb Ascii.eqb Bool.eqb].
  apply py_sorted_Ok.
  - eapply Forall_impl; [exact H|]. intros d Hd.
    destruct (sortable_fields d Hd) as (b & p & c & t & Hb & Hp & _).
    unfold getitem, priority_tuple, rank_of.
    by rewrite (sortable_is_done d b Hb), Hb, Hp.
  - apply Forall_pairs. intros a b. by apply comparable_done.
Qed.

Lemma sort_tasks_created {L : StrLower} ts :
  Forall (fun d => sortable d = true) ts →
  sort_tasks ts "Created Date" = Ok (sorted_by tuple_leb created_tuple ts).
Proof.
  intros H. unfold sort_tasks. cbn [String.eqb Ascii.eqb Bool.eqb].
  apply py_sorted_Ok.
  - eapply Forall_impl; [exact H|]. intros d Hd.
    destruct (sortable_fields d Hd) as (b & p & c & t & Hb & _ & Hc & _).
    unfold getitem, created_tuple, created_of.
    by rewrite (sortable_is_done d b Hb), Hb, Hc.
  - apply Forall_pairs. intros a b. by apply comparable_done.
Qed.

Lemma sort_tasks_alphabetical {L : StrLower} ts :
  Forall (fun d => sortable d = true) ts →
  sort_tasks ts "Alphabetical" =
  Ok (sorted_by tuple_leb alphabetical_tuple ts).
Proof.
  intros H. unfold sort_tasks. cbn [String.eqb Ascii.eqb Bool.eqb].
  apply py_sorted_Ok.
  - eapply Forall_impl; [exact H|]. intros d Hd.
    destruct (sortable_fields d Hd) as (b & p & c & t & Hb & _ & _ & Ht).
    unfold getitem, alphabetical_tuple, text_of.
    by rewrite (sortable_is_done d b Hb), Hb, Ht.
  - apply Forall_pairs. intros a b. by apply comparable_done.
Qed.










(** ** The examples of the specification, and the corners of the model *)

(** Adding "Buy milk" and toggling it gives a done record with a
    completion time; deleting it empties the list, and the file then loads
    as the empty list. *)
Example add_toggle_delete_load :
  let s0 := {| tasks := []; disk := Absent |} in
  let s1 := step (Add (clock0 0) (clock0 1) "Buy milk" "High") Written s0 in
  let s2 := step (Toggle (clock0 2) (VNum 1704067200000000)) Written s1 in
  let s3 := step (Delete (VNum 1704067200000000)) Written s2 in
  (field (tasks s2) 0 "done", field (tasks s2) 0 "completed_at") =
    (Some (VBool true), Some (VStr "2024-01-01T00:00:02")) ∧
  tasks s3 = [] ∧
  load_tasks clock0 (disk s3) = Ok (JArr []).
Proof. vm_compute. repeat split; reflexivity. Qed.

(** Importing two records into a list of one appends them in order. *)
Example import_appends :
  id_keys (tasks (step (ImportBatch [task_rent; task_bare]) Written
                    {| tasks := [task_milk]; disk := Absent |})) =
    [VNum 1704067200000000; VNum 1704067200000002] ∧
  length (tasks (step (ImportBatch [task_rent; task_bare]) Written
                   {| tasks := [task_milk]; disk := Absent |})) = 3%nat.
Proof. vm_compute. repeat split; reflexivity. Qed.

(** The completed task goes behind the open one under every key. *)
Example sort_tasks_groups :
  id_keys <$> @sort_tasks ascii_lower [task_rent; task_milk] "Priority" =
    Ok [VNum 1704067200000000; VNum 1704067200000002] ∧
  id_keys <$> @sort_tasks ascii_lower [task_rent; task_milk] "Created Date" =
    Ok [VNum 1704067200000000; VNum 1704067200000002] ∧
  id_keys <$> @sort_tasks ascii_lower [task_rent; task_milk] "Alphabetical" =
    Ok [VNum 1704067200000000; VNum 1704067200000002] ∧
  id_keys <$> @sort_tasks ascii_lower [task_rent; task_milk] "Newest" =
    Ok [VNum 1704067200000002; VNum 1704067200000000].
Proof. vm_compute. repeat split; reflexivity. Qed.

(** A [done] that holds [None] cannot be compared with a boolean; alone in
    the list it is compared with nothing. *)
Example sort_tasks_none_done :
  @sort_tasks ascii_lower [<["done" := VNone]> task_milk; task_rent]
    "Priority" = Raise TypeError ∧
  length <$> @sort_tasks ascii_lower [<["done" := VNone]> task_milk]
    "Priority" = Ok 1%nat ∧
  @sort_tasks ascii_lower [<["task" := VNum 7]> task_milk] "Alphabetical" =
    Raise AttributeError.
Proof. vm_compute. repeat split; reflexivity. Qed.

(** Valid JSON of other shapes: an empty object and an empty string come
    back as they are, a string element passes the four tests when it
    contains the four keys, and a number at the top cannot be iterated. *)
Example load_tasks_shapes :
  load_tasks clock0 (Document (JObj ∅)) = Ok (JObj ∅) ∧
  load_tasks clock0 (Document (JAtom (VStr ""))) = Ok (JAtom (VStr "")) ∧
  load_tasks clock0 (Document (JAtom (VStr "x"))) = Raise TypeError ∧
  load_tasks clock0
    (Document (JArr [JAtom (VStr "id priority created_at completed_at")])) =
    Ok (JArr [JAtom (VStr "id priority created_at completed_at")]) ∧
  load_tasks clock0 (Document (JArr [JAtom (VStr "bid")])) = Raise TypeError ∧
  load_tasks clock0 (Document (JAtom (VNum 5))) = Raise TypeError.
Proof. vm_compute. repeat split; reflexivity. Qed.

(** White space is what [str.isspace()] says: the add form takes nothing
    from an ideographic space (U+3000), and it takes a no-break space
    (U+00A0) and a next line (U+0085) off the ends of a text but leaves the
    one inside; a zero width space (U+200B) is no white space. *)
Example strip_white_space :
  strip (utf8 0x3000) = "" ∧
  add_handler Written (clock0 0) (clock0 1) (utf8 0x3000) "High"
    {| tasks := [task_milk]; disk := Absent |} =
    {| tasks := [task_milk]; disk := Absent |} ∧
  strip (utf8 0xA0 +:+ "Buy" +:+ utf8 0xA0 +:+ "milk" +:+ utf8 0x85 +:+ " ") =
    "Buy" +:+ utf8 0xA0 +:+ "milk" ∧
  strip (utf8 0x200B) = utf8 0x200B ∧
  characters ("a" +:+ utf8 0xE9 +:+ utf8 0x3000 +:+ utf8 0x1F600) =
    ["a"; utf8 0xE9; utf8 0x3000; utf8 0x1F600].
Proof. vm_compute. repeat split; reflexivity. Qed.

(** A file that cannot be read: the exception leaves [load_tasks], and the
    script stops before it has a list. *)
Example load_tasks_unreadable :
  load_tasks clock0 (Unreadable UnicodeDecodeError) =
    Raise UnicodeDecodeError ∧
  load_tasks clock0 (Unreadable RecursionError) = Raise RecursionError ∧
  start clock0 (Unreadable OSError) = None.
Proof. repeat split; reflexivity. Qed.

(** * Further properties of the code *)

(** ** toggle_task_completion and edit_task at work *)

Lemma toggled_lookup t v (d : task) k :
  k ≠ "done" → k ≠ "completed_at" → toggled t v d !! k = d !! k.
Proof. intros. unfold toggled. by rewrite !lookup_insert_ne. Qed.

(** X1: [toggle_task_completion] keeps the length of the list and the ids
    in it; every record stays at its place and agrees with the old one on
    every field but [done] and [completed_at]; a record with another id is
    the old record; at most one record changes; and without a record of
    the given id the list is the old list. The call that raises changes
    nothing. *)
Theorem toggle_task_frame (w : write) (t : instant) (task_id : value)
    (s : session) :
  let ts := tasks s in
  let ts' := tasks (step (Toggle t task_id) w s) in
  length ts' = length ts ∧
  id_keys ts' = id_keys ts ∧
  (∀ i d, ts !! i = Some d →
     ∃ d', ts' !! i = Some d' ∧
       (∀ k, k ≠ "done" → k ≠ "completed_at" → d' !! k = d !! k) ∧
       (has_id task_id d = false → d' = d)) ∧
  (∀ i j, i ≠ j → ts' !! i ≠ ts !! i → ts' !! j = ts !! j) ∧
  (Forall (fun d => has_id task_id d = false) ts → ts' = ts).
Proof.
  cbv zeta. rewrite step_tasks. cbn [apply].
  destruct (toggle t task_id (tasks s)) as [ts'|e] eqn:E.
  2:{ split; [done|]. split; [done|].
      split; [intros i d Hi; by exists d|].
      split; [by intros i j _ Hch|done]. }
  apply toggle_Ok in E as [[-> _]|(i & d & v & Hf & Hv & ->)].
  { split; [done|]. split; [done|].
    split; [intros i d Hi; by exists d|].
    split; [by intros i j _ Hch|done]. }
  pose proof Hf as (Hi & Hd & _).
  split; [apply length_insert|].
  split; [by apply (id_keys_insert _ _ d), toggled_id|].
  split; [|split].
  - intros j dj Hj. destruct (decide (j = i)) as [->|Hne].
    + assert (dj = d) as -> by congruence.
      exists (toggled t v d).
      split; [apply list_lookup_insert_eq; by eapply lookup_lt_Some|].
      split; [intros; by apply toggled_lookup | congruence].
    + exists dj. by rewrite list_lookup_insert_ne.
  - intros j1 j2 Hne Hch. destruct (decide (i = j2)) as [->|Hne2].
    + rewrite list_lookup_insert_ne in Hch by done. done.
    + by rewrite list_lookup_insert_ne.
  - intros Hall. by apply first_match_not_absent in Hf.
Qed.

(** X2: when the first record of the given id carries [done],
    [toggle_task_completion] returns with that record rewritten: [done] is
    the boolean opposite to the truth of what it held, [completed_at] is
    the time of the call when the task becomes done and [None] when it
    becomes open, so the record satisfies the invariant afterwards,
    whatever it held before. When that record has no [done], the call
    raises [KeyError] and the session is as before. *)
Theorem toggle_task_effect (w : write) (t : instant) (task_id : value)
    (s : session) (i : nat) (d : task) :
  first_match task_id (tasks s) i d →
  match d !! "done" with
  | Some v =>
      ∃ d', toggle_task_completion w t task_id s =
              Ok (saved w (<[i := d']> (tasks s))) ∧
        d' !! "done" = Some (VBool (negb (truthy v))) ∧
        d' !! "completed_at" =
          Some (if truthy v then VNone else VStr (isoformat t)) ∧
        is_done d' = negb (truthy v) ∧
        consistent d' = true
  | None =>
      toggle_task_completion w t task_id s = Raise (KeyError "done") ∧
      step (Toggle t task_id) w s = s
  end.
Proof.
  intros Hf. destruct (d !! "done") as [v|] eqn:Hv.
  - exists (toggled t v d). unfold toggle_task_completion.
    rewrite (toggle_first_match t task_id _ i d v Hf Hv).
    split; [done|]. unfold toggled at 1 2.
    rewrite lookup_insert_ne, !lookup_insert_eq by done.
    split; [done|]. split; [by destruct (truthy v)|].
    split; [|apply consistent_toggled].
    unfold is_done, toggled. rewrite lookup_insert_ne, lookup_insert_eq by done.
    by destruct (truthy v).
  - assert (toggle t task_id (tasks s) = Raise (KeyError "done")) as E.
    { revert i Hf. generalize (tasks s) as ts.
      induction ts as [|d0 rest IH]; intros i Hf.
      - by destruct Hf as (? & _).
      - apply first_match_inv in Hf
          as [(-> & -> & H0)|(i' & -> & [x Hx] & H0 & Hf)].
        + simpl. unfold getitem, has_id in *.
          destruct (d0 !! "id") as [x|]; [|done]. cbn [mbind result_bind].
          by rewrite H0, Hv.
        + simpl. unfold getitem. rewrite Hx. cbn [mbind result_bind].
          rewrite (has_id_getitem _ _ x Hx) in H0. rewrite H0.
          by rewrite (IH i' Hf). }
    cbn [step]. unfold toggle_task_completion. by rewrite E.
Qed.

Lemma edit_first_match task_id new_text new_priority ts : ∀ i d,
  first_match task_id ts i d →
  edit task_id new_text new_priority ts =
  Ok (<[i := edited new_text new_priority d]> ts).
Proof.
  induction ts as [|d0 rest IH]; intros i d Hf.
  - by destruct Hf as (? & _).
  - apply first_match_inv in Hf as [(-> & -> & H0)|(i' & -> & [x Hx] & H0 & Hf)].
    + simpl. unfold getitem, has_id in *.
      destruct (d0 !! "id") as [x|]; [|done]. cbn [mbind result_bind].
      by rewrite H0.
    + simpl. unfold getitem. rewrite Hx. cbn [mbind result_bind].
      rewrite (has_id_getitem _ _ x Hx) in H0. rewrite H0.
      by rewrite (IH i' d Hf).
Qed.

Lemma edited_edited t1 p1 t2 p2 (d : task) :
  edited t2 p2 (edited t1 p1 d) = edited t2 p2 d.
Proof.
  unfold edited. apply map_eq. intros k. rewrite !lookup_insert.
  repeat case_decide; congruence.
Qed.

(** X3: when a record of the given id is reached, [edit_task] returns and
    the first such record then holds the new text and the new priority;
    editing again overwrites them, so of two edits of one id only the
    last shows. *)
Theorem edit_task_effect (w : write) (task_id : value)
    (new_text new_priority : string) (s : session) (i : nat) (d : task) :
  first_match task_id (tasks s) i d →
  ∃ d', edit_task w task_id new_text new_priority s =
          Ok (saved w (<[i := d']> (tasks s))) ∧
    d' !! "task" = Some (VStr new_text) ∧
    d' !! "priority" = Some (VStr new_priority) ∧
    ∀ w' text' priority',
      edit_task w' task_id text' priority' (saved w (<[i := d']> (tasks s))) =
      edit_task w' task_id text' priority' s.
Proof.
  intros Hf. exists (edited new_text new_priority d). unfold edit_task.
  rewrite (edit_first_match _ _ _ _ i d Hf). split; [done|].
  unfold edited at 1 2. rewrite lookup_insert_ne, !lookup_insert_eq by done.
  split; [done|]. split; [done|]. intros w' text' priority'. cbn [tasks saved].
  rewrite (edit_first_match _ _ _ _ i (edited new_text new_priority d)).
  - rewrite (edit_first_match _ _ _ _ i d Hf).
    by rewrite list_insert_insert_eq, edited_edited.
  - apply (first_match_insert _ _ _ d); [done|apply edited_id].
Qed.

(** ** KeyError, and what is left after delete and clear *)

Lemma delete_eq task_id ts :
  delete task_id ts =
  if forallb (has_key "id") ts
  then Ok (filter (fun d => has_id task_id d = false) ts)
  else Raise (KeyError "id").
Proof.
  induction ts as [|d0 rest IH]; [done|].
  cbn [delete forallb]. unfold getitem, has_key at 1.
  destruct (d0 !! "id") as [x|] eqn:Ex.
  - rewrite bool_decide_eq_true_2 by by eexists.
    cbn [mbind result_bind andb]. rewrite IH.
    destruct (forallb (has_key "id") rest); [|done]. cbn [mbind result_bind].
    rewrite filter_cons, (has_id_getitem _ _ x Ex).
    destruct (py_eq x task_id); by case_decide.
  - rewrite bool_decide_eq_false_2 by by intros [? ?]. done.
Qed.

Lemma clear_completed_eq ts :
  clear_completed ts =
  if forallb (has_key "done") ts
  then Ok (filter (fun d => done_truthy d = false) ts)
  else Raise (KeyError "done").
Proof.
  induction ts as [|d0 rest IH]; [done|].
  cbn [clear_completed forallb]. unfold getitem, has_key at 1.
  destruct (d0 !! "done") as [v|] eqn:Ev.
  - rewrite bool_decide_eq_true_2 by by eexists.
    cbn [mbind result_bind andb]. rewrite IH.
    destruct (forallb (has_key "done") rest); [|done]. cbn [mbind result_bind].
    assert (done_truthy d0 = truthy v) as Hd
      by (unfold done_truthy; by rewrite Ev).
    rewrite filter_cons, Hd. destruct (truthy v); by case_decide.
  - rewrite bool_decide_eq_false_2 by by intros [? ?]. done.
Qed.

Lemma completed_count_eq ts :
  completed_count ts =
  if forallb (has_key "done") ts
  then Ok (Z.of_nat (length (filter (fun d => done_truthy d = true) ts)))
  else Raise (KeyError "done").
Proof.
  induction ts as [|d0 rest IH]; [done|].
  cbn [completed_count forallb]. unfold getitem, has_key at 1.
  destruct (d0 !! "done") as [v|] eqn:Ev.
  - rewrite bool_decide_eq_true_2 by by eexists.
    cbn [mbind result_bind andb]. rewrite IH.
    destruct (forallb (has_key "done") rest); [|done]. cbn [mbind result_bind].
    assert (done_truthy d0 = truthy v) as Hd
      by (unfold done_truthy; by rewrite Ev).
    rewrite filter_cons, Hd.
    destruct (truthy v); case_decide; try done. f_equal. simpl length. lia.
  - rewrite bool_decide_eq_false_2 by by intros [? ?]. done.
Qed.

Lemma forallb_has_key k (ts : list task) :
  forallb (has_key k) ts = true ↔ Forall (fun d => is_Some (d !! k)) ts.
Proof.
  rewrite forallb_forall, Forall_forall. unfold has_key.
  split; intros H d Hd.
  - apply list_elem_of_In, H in Hd. by apply bool_decide_eq_true in Hd.
  - apply bool_decide_eq_true, H. by apply list_elem_of_In.
Qed.

Lemma forallb_sublist {A} (f : A → bool) (l k : list A) :
  l `sublist_of` k → forallb f k = true → forallb f l = true.
Proof.
  rewrite !forallb_forall. intros Hs H x Hx.
  apply H, list_elem_of_In. eapply elem_of_sublist; [|done].
  by apply list_elem_of_In.
Qed.

Lemma toggle_no_match t task_id ts :
  forallb (has_key "id") ts = true →
  Forall (fun d => has_id task_id d = false) ts →
  toggle t task_id ts = Ok ts.
Proof.
  intros Hk Hm. induction Hm as [|d0 rest H0 _ IH]; [done|].
  cbn [forallb] in Hk. apply andb_true_iff in Hk as [Hk0 Hk].
  apply bool_decide_eq_true in Hk0 as [x Hx].
  simpl. unfold getitem. rewrite Hx. cbn [mbind result_bind].
  rewrite (has_id_getitem _ _ x Hx) in H0. by rewrite H0, IH.
Qed.

Lemma edit_no_match task_id new_text new_priority ts :
  forallb (has_key "id") ts = true →
  Forall (fun d => has_id task_id d = false) ts →
  edit task_id new_text new_priority ts = Ok ts.
Proof.
  intros Hk Hm. induction Hm as [|d0 rest H0 _ IH]; [done|].
  cbn [forallb] in Hk. apply andb_true_iff in Hk as [Hk0 Hk].
  apply bool_decide_eq_true in Hk0 as [x Hx].
  simpl. unfold getitem. rewrite Hx. cbn [mbind result_bind].
  rewrite (has_id_getitem _ _ x Hx) in H0. by rewrite H0, IH.
Qed.

Lemma Forall_filter_self {A} (P : A → Prop) `{!∀ x, Decision (P x)}
    (l : list A) : Forall P (filter P l).
Proof.
  apply Forall_forall. intros x Hx. by apply list_elem_of_filter in Hx as [? _].
Qed.

(** X4: [delete_task] raises [KeyError] exactly when a record of the list
    has no id, and the session is then as it was; otherwise no record of
    the given id is left, and a second delete, an edit or a toggle of that
    id leaves the list as the delete left it. *)
Theorem delete_task_then_absent (w w' : write) (t : instant)
    (task_id : value) (new_text new_priority : string) (s : session) :
  let s' := step (Delete task_id) w s in
  if forallb (has_key "id") (tasks s) then
    delete_task w task_id s =
      Ok (saved w (filter (fun d => has_id task_id d = false) (tasks s))) ∧
    Forall (fun d => has_id task_id d = false) (tasks s') ∧
    tasks (step (Delete task_id) w' s') = tasks s' ∧
    tasks (step (Edit task_id new_text new_priority) w' s') = tasks s' ∧
    tasks (step (Toggle t task_id) w' s') = tasks s'
  else
    delete_task w task_id s = Raise (KeyError "id") ∧ s' = s.
Proof.
  cbv zeta. destruct (forallb (has_key "id") (tasks s)) eqn:Hk.
  2:{ split; [unfold delete_task; by rewrite delete_eq, Hk|].
      cbn [step]. unfold delete_task. by rewrite delete_eq, Hk. }
  assert (forallb (has_key "id")
            (filter (fun d => has_id task_id d = false) (tasks s)) = true)
    as Hk' by (eapply forallb_sublist; [apply sublist_filter|done]).
  pose proof (Forall_filter_self (fun d => has_id task_id d = false) (tasks s))
    as Hm.
  assert (tasks (step (Delete task_id) w s) =
          filter (fun d => has_id task_id d = false) (tasks s)) as E.
  { rewrite step_tasks. cbn [apply]. by rewrite delete_eq, Hk. }
  split; [unfold delete_task; by rewrite delete_eq, Hk|].
  rewrite !(step_tasks _ w'), !E. cbn [apply].
  split; [done|].
  rewrite delete_eq, Hk', (filter_all _ _ Hm).
  by rewrite (edit_no_match _ _ _ _ Hk' Hm), (toggle_no_match _ _ _ Hk' Hm).
Qed.

(** X5: the clear button raises [KeyError] exactly when a record of the
    list has no [done], and the session is then as it was; otherwise
    exactly the records whose [done] is false as [if] takes it are left, in
    their order, a list without a done record is left as it is, and a
    second clear changes nothing. *)
Theorem clear_completed_spec (w w' : write) (s : session) :
  let s' := step ClearCompleted w s in
  if forallb (has_key "done") (tasks s) then
    clear_handler w s =
      Ok (saved w (filter (fun d => done_truthy d = false) (tasks s))) ∧
    Forall (fun d => done_truthy d = false) (tasks s') ∧
    tasks s' `sublist_of` tasks s ∧
    (Forall (fun d => done_truthy d = false) (tasks s) → tasks s' = tasks s) ∧
    tasks (step ClearCompleted w' s') = tasks s'
  else
    clear_handler w s = Raise (KeyError "done") ∧ s' = s.
Proof.
  cbv zeta. destruct (forallb (has_key "done") (tasks s)) eqn:Hk.
  2:{ split; [unfold clear_handler; by rewrite clear_completed_eq, Hk|].
      cbn [step]. unfold clear_handler. by rewrite clear_completed_eq, Hk. }
  assert (forallb (has_key "done")
            (filter (fun d => done_truthy d = false) (tasks s)) = true)
    as Hk' by (eapply forallb_sublist; [apply sublist_filter|done]).
  pose proof (Forall_filter_self (fun d => done_truthy d = false) (tasks s))
    as Hm.
  assert (tasks (step ClearCompleted w s) =
          filter (fun d => done_truthy d = false) (tasks s)) as E.
  { rewrite step_tasks. cbn [apply]. by rewrite clear_completed_eq, Hk. }
  split; [unfold clear_handler; by rewrite clear_completed_eq, Hk|].
  rewrite (step_tasks _ w'), !E. cbn [apply].
  split; [done|]. split; [apply sublist_filter|].
  split; [intros Hall; by apply filter_all|].
  by rewrite clear_completed_eq, Hk', (filter_all _ _ Hm).
Qed.

Lemma length_filter_split {A} (f : A → bool) (l : list A) :
  length l =
  (length (filter (fun x => f x = false) l) +
   length (filter (fun x => f x = true) l))%nat.
Proof.
  induction l as [|x l IH]; [done|]. rewrite !filter_cons.
  destruct (f x); repeat case_decide; try done; simpl; lia.
Qed.

Lemma filter_true_existsb {A} (f : A → bool) (l : list A) :
  (0 <? Z.of_nat (length (filter (fun x => f x = true) l))) = existsb f l.
Proof.
  induction l as [|x l IH]; [done|]. rewrite filter_cons. cbn [existsb].
  destruct (f x); by case_decide.
Qed.

Lemma filter_none {A} (P Q : A → Prop) `{!∀ x, Decision (P x)}
    `{!∀ x, Decision (Q x)} (l : list A) :
  (∀ x, P x → Q x → False) → filter P (filter Q l) = [].
Proof.
  intros Hex. induction l as [|x l IH]; [done|]. rewrite (filter_cons Q).
  case_decide; [|done]. rewrite filter_cons. case_decide; [|done].
  by destruct (Hex x).
Qed.

(** X6: the dashboard raises [KeyError] exactly when a record has no
    [done]; otherwise Done counts the records whose [done] is true as
    [if] takes it, Pending counts the others, Total is their sum, and the
    clear button is offered exactly when some record is done. After a
    clear, Total and Pending are the old Pending, Done is zero and the
    button is gone. *)
Theorem statistics_spec (ts : list task) :
  let pending := Z.of_nat (length (filter (fun d => done_truthy d = false) ts)) in
  let completed := Z.of_nat (length (filter (fun d => done_truthy d = true) ts)) in
  if forallb (has_key "done") ts then
    statistics ts = Ok (pending + completed, pending, completed) ∧
    Z.of_nat (length ts) = pending + completed ∧
    clear_offered ts = Ok (existsb done_truthy ts) ∧
    ∃ ts', clear_completed ts = Ok ts' ∧
           statistics ts' = Ok (pending, pending, 0) ∧
           clear_offered ts' = Ok false
  else
    statistics ts = Raise (KeyError "done") ∧
    clear_offered ts = Raise (KeyError "done").
Proof.
  cbv zeta. unfold statistics, clear_offered. rewrite completed_count_eq.
  destruct (forallb (has_key "done") ts) eqn:Hk; [|done].
  cbn [mbind result_bind].
  pose proof (length_filter_split done_truthy ts) as Hlen.
  set (p := length (filter (fun d => done_truthy d = false) ts)) in *.
  set (c := length (filter (fun d => done_truthy d = true) ts)) in *.
  assert (Z.of_nat (length ts) = Z.of_nat p + Z.of_nat c) as -> by lia.
  replace (Z.of_nat p + Z.of_nat c - Z.of_nat c) with (Z.of_nat p) by lia.
  split; [done|]. split; [done|].
  split; [unfold c; by rewrite filter_true_existsb|].
  exists (filter (fun d => done_truthy d = false) ts).
  rewrite clear_completed_eq, Hk. split; [done|].
  rewrite completed_count_eq.
  rewrite (forallb_sublist _ _ ts (sublist_filter _ _) Hk).
  rewrite (filter_none (fun d => done_truthy d = true)
             (fun d => done_truthy d = false)) by congruence.
  cbn [mbind result_bind length]. fold p. split; [|done].
  by replace (Z.of_nat p - Z.of_nat 0) with (Z.of_nat p) by lia.
Qed.

(** ** The list on the page *)

Section SortedMore.
Context {A K : Type} (leb : K → K → bool) (key : A → K).
Context (P : A → Prop) `{!∀ a, Decision (P a)}.
Hypothesis leb_total : ∀ a b, leb a b = true ∨ leb b a = true.
Hypothesis leb_trans :
  ∀ a b c, leb a b = true → leb b c = true → leb a c = true.

Lemma insert_by_least x l :
  Forall (fun z => leb (key x) (key z) = true) l →
  insert_by leb key x l = x :: l.
Proof. intros [|y l' Hy _]; [done|]. cbn [insert_by]. by rewrite Hy. Qed.



Lemma sorted_by_sorted_id l :
  StronglySorted (fun a b => leb (key a) (key b) = true) l →
  sorted_by leb key l = l.
Proof.
  induction 1 as [|x l Hl IH Hx]; [done|]. cbn [sorted_by].
  by rewrite IH, insert_by_least.
Qed.
End SortedMore.





(** Under each of the three keys [sort_tasks] is the sort by a tuple whose
    first component is [done]. *)
Lemma sort_tasks_sorted_by {L : StrLower} sort_option :
  sort_option ∈ ["Priority"; "Created Date"; "Alphabetical"] →
  ∃ kv : task → value * value,
    (∀ d, (kv d).1 = VBool (is_done d)) ∧
    ∀ ts, Forall (fun d => sortable d = true) ts →
          sort_tasks ts sort_option = Ok (sorted_by tuple_leb kv ts).
Proof.
  intros Hin. repeat (apply elem_of_cons in Hin as [->|Hin]).
  - exists priority_tuple. split; [done|apply sort_tasks_priority].
  - exists created_tuple. split; [done|apply sort_tasks_created].
  - exists alphabetical_tuple. split; [done|apply sort_tasks_alphabetical].
  - by apply elem_of_nil in Hin.
Qed.




(** X8: for records that follow the schema and each of the three sort
    keys, sorting the sorted list again returns it as it is; a sort key
    that is none of the three returns any list as it is. *)
Theorem sort_tasks_idempotent {L : StrLower} (ts : list task)
    (sort_option : string) :
  Forall (fun d => sortable d = true) ts →
  if bool_decide (sort_option ∈ ["Priority"; "Created Date"; "Alphabetical"])
  then ∃ out, sort_tasks ts sort_option = Ok out ∧
              sort_tasks out sort_option = Ok out
  else sort_tasks ts sort_option = Ok ts.
Proof.
  intros Hts. case_bool_decide as Hin.
  - destruct (sort_tasks_sorted_by sort_option Hin) as (kv & Hkv & Hsort).
    exists (sorted_by tuple_leb kv ts). split; [by apply Hsort|].
    rewrite Hsort by by rewrite sorted_by_perm. f_equal.
    apply sorted_by_sorted_id, sorted_by_sorted;
      [apply tuple_leb_total|apply tuple_leb_trans].
  - unfold sort_tasks.
    destruct (String.eqb_spec sort_option "Priority") as [->|_];
      [destruct Hin; set_solver|].
    destruct (String.eqb_spec sort_option "Created Date") as [->|_];
      [destruct Hin; set_solver|].
    destruct (String.eqb_spec sort_option "Alphabetical") as [->|_];
      [destruct Hin; set_solver|]. done.
Qed.

(** ** The add form *)

Lemma append_assoc s1 s2 s3 : (s1 +:+ s2) +:+ s3 = s1 +:+ (s2 +:+ s3).
Proof.
  induction s1 as [|a s1 IH]; [done|].
  change (String a s1 +:+ s2) with (String a (s1 +:+ s2)).
  change (String a (s1 +:+ s2) +:+ s3) with (String a ((s1 +:+ s2) +:+ s3)).
  by rewrite IH.
Qed.

Lemma characters_cons a s :
  characters (String a s) =
  match characters s with
  | [] => [String a ""]
  | c :: cs =>
      if continued s then String a c :: cs else String a "" :: c :: cs
  end.
Proof. reflexivity. Qed.

Lemma join_cons c cs : join (c :: cs) = c +:+ join cs.
Proof. reflexivity. Qed.

Lemma join_app l k : join (l ++ k) = join l +:+ join k.
Proof.
  induction l as [|c l IH]; [done|].
  cbn [app]. by rewrite !join_cons, IH, append_assoc.
Qed.

(** The characters of a string, put together, are the string. *)
Lemma join_characters s : join (characters s) = s.
Proof.
  induction s as [|a s IH]; [done|]. rewrite characters_cons.
  destruct (characters s) as [|c cs].
  - by rewrite <- IH.
  - rewrite join_cons in IH.
    destruct (continued s); rewrite !join_cons, <- IH; reflexivity.
Qed.

Lemma characters_nonempty s : Forall (fun c => c ≠ "") (characters s).
Proof.
  induction s as [|a s IH]; [constructor|]. rewrite characters_cons.
  destruct (characters s) as [|c cs]; [by repeat constructor|].
  inversion IH as [|? ? Hc Hcs]; subst.
  destruct (continued s); repeat constructor; done.
Qed.

Lemma lstrip_head cs c : head (lstrip cs) = Some c → is_space c = false.
Proof.
  induction cs as [|x cs IH]; [done|]. cbn [lstrip].
  destruct (is_space x) eqn:E; [done|]. by intros [= <-].
Qed.

Lemma rstrip_last cs c : last (rstrip cs) = Some c → is_space c = false.
Proof.
  induction cs as [|x cs IH]; [done|]. cbn [rstrip].
  destruct (rstrip cs) as [|y r] eqn:E.
  - destruct (is_space x) eqn:Ex; [done|]. by intros [= <-].
  - exact IH.
Qed.

Lemma rstrip_head cs c :
  head cs = Some c → is_space c = false → head (rstrip cs) = Some c.
Proof.
  destruct cs as [|x cs]; [done|]. cbn [rstrip head]. intros [= ->] Hc.
  destruct (rstrip cs); [by rewrite Hc|done].
Qed.

Lemma lstrip_split cs :
  ∃ l, cs = l ++ lstrip cs ∧ forallb is_space l = true.
Proof.
  induction cs as [|x cs (l & Hl & Hsp)]; [by exists []|]. cbn [lstrip].
  destruct (is_space x) eqn:Ex.
  - exists (x :: l). split; [|by cbn [forallb]; rewrite Ex].
    cbn [app]. by rewrite <- Hl.
  - by exists [].
Qed.

Lemma rstrip_split cs :
  ∃ r, cs = rstrip cs ++ r ∧ forallb is_space r = true.
Proof.
  induction cs as [|x cs (r & Hr & Hsp)]; [by exists []|]. cbn [rstrip].
  destruct (rstrip cs) as [|y r0] eqn:E.
  - cbn [app] in Hr. subst cs.
    destruct (is_space x) eqn:Ex.
    + exists (x :: r). split; [done|]. by cbn [forallb]; rewrite Ex.
    + by exists r.
  - exists r. split; [|done]. cbn [app] in Hr |- *. by rewrite <- Hr.
Qed.

Lemma lstrip_nil cs : lstrip cs = [] ↔ forallb is_space cs = true.
Proof.
  induction cs as [|x cs IH]; [done|]. cbn [lstrip forallb].
  destruct (is_space x); [exact IH|done].
Qed.

(** The stripped string is made of the characters between the white space
    at the two ends. *)
Lemma strip_split s :
  ∃ l t r,
    characters s = l ++ t ++ r ∧ strip s = join t ∧
    forallb is_space l = true ∧ forallb is_space r = true ∧
    (∀ c, head t = Some c ∨ last t = Some c → is_space c = false) ∧
    (t = [] ↔ all_space s = true).
Proof.
  destruct (lstrip_split (characters s)) as (l & Hl & Hsp).
  destruct (rstrip_split (lstrip (characters s))) as (r & Hr & Hsp').
  exists l, (rstrip (lstrip (characters s))), r.
  split; [by rewrite <- Hr|]. split; [done|]. split; [done|]. split; [done|].
  split.
  - intros c [Hc|Hc]; [|by eapply rstrip_last].
    destruct (lstrip (characters s)) as [|x cs] eqn:E; [done|].
    pose proof (lstrip_head (characters s) x) as Hx. rewrite E in Hx.
    specialize (Hx eq_refl).
    rewrite (rstrip_head (x :: cs) x eq_refl Hx) in Hc. congruence.
  - unfold all_space. rewrite <- lstrip_nil. split; [|by intros ->].
    intros Ht. destruct (lstrip (characters s)) as [|x cs] eqn:E; [done|].
    pose proof (lstrip_head (characters s) x) as Hx. rewrite E in Hx.
    specialize (Hx eq_refl).
    pose proof (rstrip_head (x :: cs) x eq_refl Hx) as Hh.
    by rewrite Ht in Hh.
Qed.

Lemma strip_empty s : String.eqb (strip s) "" = all_space s.
Proof.
  destruct (strip_split s) as (l & t & r & Hs & -> & _ & _ & _ & Ht).
  destruct (all_space s) eqn:E.
  - by rewrite (proj2 Ht).
  - apply String.eqb_neq. intros Hj.
    destruct t as [|c t]; [destruct Ht as [Ht _]; by specialize (Ht eq_refl)|].
    pose proof (characters_nonempty s) as Hne. rewrite Hs in Hne.
    apply Forall_app in Hne as [_ Hne].
    apply Forall_app in Hne as [Hne _].
    inversion Hne as [|? ? Hc _]; subst.
    rewrite join_cons in Hj. by destruct c.
Qed.

(** X9: the add form does nothing, and writes nothing, for a text of white
    space only, where white space is what [str.isspace()] says of a
    character. For any other text it appends one record behind the old
    ones and saves; the record is complete, satisfies the invariant, has
    the first clock reading as id and the chosen priority, and its text is
    the typed text without the white space at its two ends: the characters
    typed are white space, then the characters of the stored text, then
    white space, and the stored text is not empty and neither starts nor
    ends with white space. *)
Theorem add_handler_spec (w : write) (t_id t_created : instant)
    (new_task priority : string) (s : session) :
  let s' := add_handler w t_id t_created new_task priority s in
  if all_space new_task then s' = s
  else
    ∃ r text,
      tasks s' = tasks s ++ [r] ∧ disk s' = save_tasks w (tasks s') ∧
      r !! "task" = Some (VStr text) ∧
      r !! "id" = Some (VNum (timestamp t_id)) ∧
      r !! "priority" = Some (VStr priority) ∧
      complete r = true ∧ consistent r = true ∧
      text ≠ "" ∧
      ∃ l t r',
        characters new_task = l ++ t ++ r' ∧ text = join t ∧
        new_task = join l +:+ text +:+ join r' ∧
        forallb is_space l = true ∧ forallb is_space r' = true ∧
        (∀ c, head t = Some c ∨ last t = Some c → is_space c = false).
Proof.
  cbv zeta. unfold add_handler, add. rewrite !strip_empty.
  destruct (all_space new_task) eqn:E; [done|].
  exists (create_task t_id t_created (strip new_task) priority),
         (strip new_task).
  split; [done|]. split; [done|].
  unfold create_task at 1 2 3.
  split; [by simplify_map_eq|]. split; [by simplify_map_eq|].
  split; [by simplify_map_eq|].
  split. { unfold complete, create_task. cbn [forallb].
           rewrite !bool_decide_eq_true_2; [done|..]; by simplify_map_eq. }
  split; [apply consistent_create_task|].
  split. { apply String.eqb_neq. by rewrite strip_empty. }
  destruct (strip_split new_task) as (l & t & r' & Hs & Ht & Hl & Hr & Hends & _).
  exists l, t, r'. split; [done|]. split; [done|].
  split; [|done].
  rewrite Ht, <- !join_app, <- Hs. symmetry. apply join_characters.
Qed.

(** ** Complete records *)

Lemma complete_spec d :
  complete d = true ↔
  ∀ k, k ∈ ["id"; "task"; "done"; "priority"; "created_at"; "completed_at"] →
       is_Some (d !! k).
Proof.
  split; [intros H k; by apply complete_lookup|].
  intros H. unfold complete. apply forallb_forall. intros k Hk.
  apply bool_decide_eq_true, H. by apply list_elem_of_In.
Qed.

Lemma complete_insert k v (d : task) :
  complete d = true → complete (<[k := v]> d) = true.
Proof.
  rewrite !complete_spec. intros H k' Hk'.
  apply lookup_insert_is_Some'. right. by apply H.
Qed.

Lemma complete_create_task t_id t_created text priority :
  complete (create_task t_id t_created text priority) = true.
Proof.
  unfold complete, create_task. cbn [forallb].
  rewrite !bool_decide_eq_true_2; [done|..]; by simplify_map_eq.
Qed.

Lemma complete_has_key k ts :
  k ∈ ["id"; "task"; "done"; "priority"; "created_at"; "completed_at"] →
  Forall (fun d => complete d = true) ts → forallb (has_key k) ts = true.
Proof.
  intros Hk H. apply forallb_has_key. eapply Forall_impl; [exact H|].
  intros d Hd. by apply complete_lookup.
Qed.

Lemma toggle_returns t task_id ts :
  forallb (has_key "id") ts = true → forallb (has_key "done") ts = true →
  ∃ ts', toggle t task_id ts = Ok ts'.
Proof.
  induction ts as [|d0 rest IH]; [by eexists|]. cbn [forallb].
  intros [[x Hx]%bool_decide_eq_true Hi]%andb_true_iff
         [[v Hv]%bool_decide_eq_true Hd]%andb_true_iff.
  simpl. unfold getitem. rewrite Hx, Hv. cbn [mbind result_bind].
  destruct (py_eq x task_id); [by eexists|].
  destruct (IH Hi Hd) as [ts' ->]. by eexists.
Qed.

Lemma edit_returns task_id new_text new_priority ts :
  forallb (has_key "id") ts = true →
  ∃ ts', edit task_id new_text new_priority ts = Ok ts'.
Proof.
  induction ts as [|d0 rest IH]; [by eexists|]. cbn [forallb].
  intros [[x Hx]%bool_decide_eq_true Hi]%andb_true_iff.
  simpl. unfold getitem. rewrite Hx. cbn [mbind result_bind].
  destruct (py_eq x task_id); [by eexists|].
  destruct (IH Hi) as [ts' ->]. by eexists.
Qed.

Lemma apply_complete a ts ts' :
  imports_complete a → apply a ts = Ok ts' →
  Forall (fun d => complete d = true) ts →
  Forall (fun d => complete d = true) ts'.
Proof.
  intros Himp E Hts. destruct a; simpl in E, Himp.
  - injection E as <-. unfold add. destruct (String.eqb _ _); [done|].
    apply Forall_app_2; [done|]. constructor; [|done].
    apply complete_create_task.
  - apply toggle_Ok in E as [[-> _]|(i & d & v & (Hi & _) & _ & ->)]; [done|].
    apply Forall_insert; [done|]. unfold toggled.
    do 2 apply complete_insert. by eapply (Forall_lookup_1 _ _ _ _ Hts).
  - apply edit_Ok in E as [[-> _]|(i & d & (Hi & _) & ->)]; [done|].
    apply Forall_insert; [done|]. unfold edited.
    do 2 apply complete_insert. by eapply (Forall_lookup_1 _ _ _ _ Hts).
  - apply delete_Ok in E as ->.
    eapply Forall_sublist; [apply sublist_filter|done].
  - eapply Forall_sublist; [by apply clear_completed_Ok|done].
  - injection E as <-. by apply Forall_app_2.
Qed.

Lemma run_complete acts : ∀ s,
  Forall (fun aw : action * write => imports_complete aw.1) acts →
  Forall (fun d => complete d = true) (tasks s) →
  Forall (fun d => complete d = true) (tasks (run acts s)).
Proof.
  induction acts as [|[a w] acts IH]; intros s Hacts Hs; [done|].
  inversion Hacts as [|? ? Ha Hrest]; subst. simpl. apply IH; [done|].
  rewrite step_tasks. destruct (apply a (tasks s)) as [ts'|e] eqn:E; [|done].
  by eapply apply_complete.
Qed.

(** X10: records that carry the six fields stay so under add, toggle,
    edit, delete and clear, and under an import of such records, along any
    sequence of actions; and on such a list none of the four functions that
    read fields raises. *)
Theorem complete_records_kept (acts : list (action * write)) (s : session) :
  Forall (fun aw : action * write => imports_complete aw.1) acts →
  Forall (fun d => complete d = true) (tasks s) →
  let s' := run acts s in
  Forall (fun d => complete d = true) (tasks s') ∧
  (∀ w t task_id, ∃ s'', toggle_task_completion w t task_id s' = Ok s'') ∧
  (∀ w task_id text priority,
     ∃ s'', edit_task w task_id text priority s' = Ok s'') ∧
  (∀ w task_id, ∃ s'', delete_task w task_id s' = Ok s'') ∧
  (∀ w, ∃ s'', clear_handler w s' = Ok s'').
Proof.
  intros Hacts Hs. cbv zeta.
  pose proof (run_complete acts s Hacts Hs) as Hc.
  assert (forallb (has_key "id") (tasks (run acts s)) = true) as Hid
    by (apply complete_has_key; [set_solver|done]).
  assert (forallb (has_key "done") (tasks (run acts s)) = true) as Hdone
    by (apply complete_has_key; [set_solver|done]).
  split; [done|]. split; [|split; [|split]].
  - intros w t task_id. unfold toggle_task_completion.
    destruct (toggle_returns t task_id _ Hid Hdone) as [ts' ->]. by eexists.
  - intros w task_id text priority. unfold edit_task.
    destruct (edit_returns task_id text priority _ Hid) as [ts' ->].
    by eexists.
  - intros w task_id. unfold delete_task. rewrite delete_eq, Hid. by eexists.
  - intros w. unfold clear_handler. rewrite clear_completed_eq, Hdone.
    by eexists.
Qed.

Lemma start_saved now (ts : list task) :
  Forall (fun d => complete d = true) ts →
  start now (disk (saved Written ts)) = Some (saved Written ts).
Proof.
  intros Hc. unfold start, saved, save_tasks. cbn [disk tasks].
  rewrite load_tasks_objs, backfill_tasks_complete by done.
  by rewrite tasks_of_json_of_tasks.
Qed.

(** X11: when the records are complete and every write succeeds, a
    session that a restart would restore stays so under every sequence of
    actions with complete imports: loading the file after the last action
    gives the list that is in memory, whatever the clock reads. *)
Theorem restart_restores (now : nat → instant)
    (acts : list (action * write)) : ∀ s : session,
  Forall (fun aw : action * write =>
            imports_complete aw.1 ∧ aw.2 = Written) acts →
  Forall (fun d => complete d = true) (tasks s) →
  start now (disk s) = Some s →
  start now (disk (run acts s)) = Some (run acts s).
Proof.
  induction acts as [|[a w] acts IH]; intros s Hacts Hs Hstart; [done|].
  inversion Hacts as [|? ? [Ha Hw] Hrest]; subst. cbn [fst snd] in *. subst w.
  assert (Forall (fun d => complete d = true) (tasks (step a Written s)))
    as Hs'.
  { rewrite step_tasks.
    destruct (apply a (tasks s)) as [ts'|e] eqn:E; [|done].
    by eapply apply_complete. }
  cbn [run]. apply IH; [done|done|].
  destruct a; cbn [step] in *.
  - unfold add_handler in *. destruct (String.eqb _ _); [done|].
    by apply start_saved.
  - unfold toggle_task_completion in *.
    destruct (toggle _ _ _); [|done].
    by apply start_saved.
  - unfold edit_task in *. destruct (edit _ _ _ _); [|done].
    by apply start_saved.
  - unfold delete_task in *. destruct (delete _ _); [|done].
    by apply start_saved.
  - unfold clear_handler in *. destruct (clear_completed _); [|done].
    by apply start_saved.
  - by apply start_saved.
Qed.

(** ** What load_tasks leaves behind *)

Lemma backfilled_spec d :
  backfilled d = true ↔
  is_Some (d !! "id") ∧ is_Some (d !! "priority") ∧
  is_Some (d !! "created_at") ∧ is_Some (d !! "completed_at").
Proof.
  unfold backfilled, has_key.
  rewrite !andb_true_iff, !bool_decide_eq_true. tauto.
Qed.

Lemma backfill_task_backfilled now c d :
  backfilled (backfill_task now c d).1 = true.
Proof.
  apply backfilled_spec. rewrite !backfill_task_lookup. unfold default_of.
  destruct (d !! "id"), (d !! "priority"), (d !! "created_at"),
    (d !! "completed_at"); repeat split; by eexists.
Qed.

Lemma backfill_task_fixed now c d :
  backfilled d = true → backfill_task now c d = (d, c).
Proof.
  intros ([x1 E1] & [x2 E2] & [x3 E3] & [x4 E4])%backfilled_spec.
  unfold backfill_task. rewrite E1, E3.
  rewrite (setdefault_present "id") by eauto.
  rewrite (setdefault_present "priority") by eauto.
  rewrite (setdefault_present "created_at") by eauto.
  rewrite (setdefault_present "completed_at") by eauto.
  done.
Qed.

Lemma backfill_tasks_backfilled now ts : ∀ c,
  Forall (fun d => backfilled d = true) (backfill_tasks now c ts).
Proof.
  induction ts as [|d ts IH]; intros c; [constructor|].
  cbn [backfill_tasks]. constructor; [apply backfill_task_backfilled|apply IH].
Qed.

Lemma backfill_tasks_fixed now ts : ∀ c,
  Forall (fun d => backfilled d = true) ts → backfill_tasks now c ts = ts.
Proof.
  induction ts as [|d ts IH]; intros c H; [done|].
  inversion H as [|? ? Hd Hts]; subst. cbn [backfill_tasks].
  rewrite (backfill_task_fixed now c d Hd). cbn [fst snd]. by rewrite IH.
Qed.

Lemma toggle_returns_or_done t task_id ts :
  forallb (has_key "id") ts = true →
  (∃ ts', toggle t task_id ts = Ok ts') ∨
  toggle t task_id ts = Raise (KeyError "done").
Proof.
  induction ts as [|d0 rest IH]; [left; by eexists|]. cbn [forallb].
  intros [[x Hx]%bool_decide_eq_true Hi]%andb_true_iff.
  simpl. unfold getitem. rewrite Hx. cbn [mbind result_bind].
  destruct (py_eq x task_id).
  - destruct (d0 !! "done"); [left; by eexists|by right].
  - destruct (IH Hi) as [[ts' ->]| ->]; [left; by eexists|by right].
Qed.

(** X12: for a file that holds an array of objects, every record that
    [load_tasks] returns carries [id], [priority], [created_at] and
    [completed_at]. So on the loaded list [delete_task] and [edit_task]
    return, [toggle_task_completion] returns or raises the [KeyError] of a
    missing [done], and the list loads back unchanged, at any later time,
    from the file that a save of it writes. *)
Theorem load_tasks_establishes (now now' : nat → instant) (ts : list task) :
  ∃ ts' : list task,
    load_tasks now (Document (json_of_tasks ts)) = Ok (json_of_tasks ts') ∧
    Forall (fun d => backfilled d = true) ts' ∧
    load_tasks now' (save_tasks Written ts') = Ok (json_of_tasks ts') ∧
    (∀ task_id, ∃ r, delete task_id ts' = Ok r) ∧
    (∀ task_id text priority, ∃ r, edit task_id text priority ts' = Ok r) ∧
    (∀ t task_id, (∃ r, toggle t task_id ts' = Ok r) ∨
                  toggle t task_id ts' = Raise (KeyError "done")).
Proof.
  exists (backfill_tasks now 0 ts).
  pose proof (backfill_tasks_backfilled now ts 0) as Hb.
  assert (forallb (has_key "id") (backfill_tasks now 0 ts) = true) as Hid.
  { apply forallb_has_key. eapply Forall_impl; [exact Hb|].
    by intros d (? & _)%backfilled_spec. }
  split; [apply load_tasks_objs|]. split; [done|]. split; [|split; [|split]].
  - unfold save_tasks. by rewrite load_tasks_objs, backfill_tasks_fixed.
  - intros task_id. rewrite delete_eq, Hid. by eexists.
  - intros task_id text priority. by apply edit_returns.
  - intros t task_id. by apply toggle_returns_or_done.
Qed.

(** ** The tables of priorities *)


(** ** Distinct ids and delete_task *)

Lemma has_id_py_eq task_id (d d' : task) x :
  d !! "id" = Some x → has_id task_id d = true → has_id task_id d' = true →
  has_id x d' = true.
Proof.
  unfold has_id. intros -> Hx. destruct (d' !! "id") as [y|]; [|done].
  intros Hy. rewrite py_eq_sym in Hx. by eapply py_eq_trans.
Qed.

(** X14: in a list of records with ids that are pairwise distinct,
    [delete_task] with an id of the list removes one record, the one that
    [toggle_task_completion] and [edit_task] would change, and leaves the
    others in place. *)
Theorem delete_task_removes_one (w : write) (task_id : value) (s : session)
    (i : nat) (d : task) :
  unique_ids (tasks s) →
  forallb (has_key "id") (tasks s) = true →
  first_match task_id (tasks s) i d →
  delete_task w task_id s =
    Ok (saved w (take i (tasks s) ++ drop (S i) (tasks s))) ∧
  S (length (tasks (step (Delete task_id) w s))) = length (tasks s).
Proof.
  intros Hu Hk Hf. pose proof Hf as (Hi & Hd & Hbefore).
  assert (filter (fun d => has_id task_id d = false) (tasks s) =
          take i (tasks s) ++ drop (S i) (tasks s)) as E.
  { rewrite <- (take_drop_middle (tasks s) i d Hi) at 1.
    rewrite filter_app, filter_cons_False by congruence.
    f_equal; apply filter_all, Forall_lookup; intros j y Hj.
    - apply lookup_take_Some in Hj as [Hj Hlt].
      by destruct (Hbefore j y Hlt Hj).
    - rewrite lookup_drop in Hj.
      destruct (has_id task_id y) eqn:Hy; [|done].
      apply forallb_has_key in Hk.
      destruct (Forall_lookup_1 _ _ _ _ Hk Hi) as [x Hx].
      pose proof (has_id_py_eq task_id d y x Hx Hd Hy) as Hxy.
      specialize (Hu i (S i + j)%nat d y x Hi Hj Hx Hxy). lia. }
  split.
  - unfold delete_task. by rewrite delete_eq, Hk, E.
  - rewrite step_tasks. cbn [apply]. rewrite delete_eq, Hk, E.
    rewrite <- (take_drop_middle (tasks s) i d Hi) at 3.
    rewrite !length_app. simpl. lia.
Qed.

(** ** Files of other shapes *)

(** The first character of a string: its first byte and continuation
    bytes. *)
Lemma characters_head s : ∀ a,
  ∃ t cs, characters (String a s) = String a t :: cs ∧ continuation t = true.
Proof.
  induction s as [|b s IH]; intros a; [by exists "", []|].
  rewrite characters_cons. destruct (IH b) as (t & cs & -> & Ht).
  cbn [continued]. destruct (is_continuation b) eqn:Eb.
  - exists (String b t), cs. split; [done|]. cbn [continuation].
    by rewrite Eb, Ht.
  - by exists "", (String b t :: cs).
Qed.

(** No character contains the two letters of "id". *)
Lemma index_character t : ∀ a,
  continuation t = true → String.index 0 "id" (String a t) = None.
Proof.
  induction t as [|b t IH]; intros a Ht.
  - cbn [String.index String.prefix]. by destruct (ascii_dec "i" a).
  - cbn [continuation] in Ht. apply andb_true_iff in Ht as [Hb Ht].
    change (String.index 0 "id" (String a (String b t))) with
      (if String.prefix "id" (String a (String b t)) then Some 0%nat
       else match String.index 0 "id" (String b t) with
            | Some n => Some (S n)
            | None => None
            end).
    rewrite (IH b Ht). cbn [String.prefix].
    destruct (ascii_dec "i" a); [|done].
    destruct (ascii_dec "d" b) as [<-|]; [done|done].
Qed.

Lemma contains_character a t :
  continuation t = true →
  contains "id" (JAtom (VStr (String a t))) = Ok false.
Proof. intros Ht. unfold contains. by rewrite index_character. Qed.

(** X15: valid JSON that is not an array of objects. A file that holds a
    single scalar loads, as that scalar, only when it is the empty string,
    and makes [load_tasks] raise [TypeError] otherwise; an array in which
    the first element that is not an object is a number, a boolean or
    [null] makes it raise [TypeError] too. *)
Theorem load_tasks_other_shapes (now : nat → instant) :
  (∀ v, load_tasks now (Document (JAtom v)) =
        if decide (v = VStr "") then Ok (JAtom v) else Raise TypeError) ∧
  (∀ ts v rest, (∀ s, v ≠ VStr s) →
     load_tasks now (Document (JArr ((JObj <$> ts) ++ JAtom v :: rest))) =
     Raise TypeError).
Proof.
  split.
  - intros [| | |[|a s]]; try done.
    case_decide; [done|]. unfold load_tasks. cbn [iter mbind result_bind].
    destruct (characters_head s a) as (t & cs & -> & Ht).
    rewrite fmap_cons. cbn [backfill_all]. unfold backfill, fill.
    cbn [fst snd]. by rewrite contains_character.
  - intros ts v rest Hv. unfold load_tasks. cbn [iter mbind result_bind].
    by rewrite backfill_all_atom.
Qed.

(** ** The dashboard after an action *)

Lemma statistics_Ok ts total pending completed :
  statistics ts = Ok (total, pending, completed) →
  forallb (has_key "done") ts = true ∧
  total = Z.of_nat (length ts) ∧
  completed = Z.of_nat (length (filter (fun d => done_truthy d = true) ts)) ∧
  pending = total - completed.
Proof.
  unfold statistics. rewrite completed_count_eq.
  destruct (forallb (has_key "done") ts); [|done].
  cbn [mbind result_bind]. intros [= <- <- <-]. done.
Qed.

Lemma statistics_eq ts :
  forallb (has_key "done") ts = true →
  statistics ts =
  Ok (Z.of_nat (length ts),
      Z.of_nat (length ts) -
        Z.of_nat (length (filter (fun d => done_truthy d = true) ts)),
      Z.of_nat (length (filter (fun d => done_truthy d = true) ts))).
Proof.
  intros Hk. unfold statistics. by rewrite completed_count_eq, Hk.
Qed.

Lemma has_key_insert k (ts : list task) i (d d' : task) :
  forallb (has_key k) ts = true → is_Some (d' !! k) →
  forallb (has_key k) (<[i := d']> ts) = true.
Proof.
  rewrite !forallb_has_key. intros H Hd. by apply Forall_insert.
Qed.

Lemma count_insert (f : task → bool) (ts : list task) i (d d' : task) :
  ts !! i = Some d →
  (length (filter (fun x => f x = true) (<[i := d']> ts)) +
   (if f d then 1 else 0) =
   length (filter (fun x => f x = true) ts) + (if f d' then 1 else 0))%nat.
Proof.
  intros Hi.
  rewrite (insert_take_drop ts i d') by by eapply lookup_lt_Some.
  rewrite <- (take_drop_middle ts i d Hi) at 3.
  rewrite !filter_app, !filter_cons, !length_app.
  destruct (f d), (f d'); repeat case_decide; try done; simpl; lia.
Qed.

(** X16: the three numbers follow the actions. When the dashboard shows
    (Total, Pending, Done), then after a task is added with a text that is
    not blank it shows one more in Total and in Pending; after a toggle of
    a task of the list, Total stays and one task moves between Pending and
    Done; and after an edit all three are the same. *)
Theorem statistics_follow (ts : list task) (total pending completed : Z) :
  statistics ts = Ok (total, pending, completed) →
  (∀ t_id t_created text priority,
     all_space text = false →
     statistics (add t_id t_created text priority ts) =
     Ok (total + 1, pending + 1, completed)) ∧
  (∀ t task_id i d v,
     first_match task_id ts i d → d !! "done" = Some v →
     ∃ ts', toggle t task_id ts = Ok ts' ∧
       statistics ts' =
       Ok (total,
           if truthy v then pending + 1 else pending - 1,
           if truthy v then completed - 1 else completed + 1)) ∧
  (∀ task_id text priority ts',
     edit task_id text priority ts = Ok ts' →
     statistics ts' = Ok (total, pending, completed)).
Proof.
  intros (Hk & -> & -> & ->)%statistics_Ok. split; [|split].
  - intros t_id t_created text priority Hsp. unfold add.
    rewrite strip_empty, Hsp, statistics_eq.
    + rewrite filter_app, !length_app, filter_cons_False.
      * simpl. do 2 f_equal; [f_equal|]; lia.
      * unfold done_truthy, create_task. by simplify_map_eq.
    + rewrite forallb_app, Hk. cbn [forallb]. unfold has_key, create_task.
      rewrite bool_decide_eq_true_2; [done|]. by simplify_map_eq.
  - intros t task_id i d v Hf Hv. exists (<[i := toggled t v d]> ts).
    split; [by apply toggle_first_match|].
    destruct Hf as (Hi & _).
    rewrite statistics_eq.
    2:{ apply (has_key_insert _ _ _ d); [done|]. unfold toggled.
        rewrite lookup_insert_ne, lookup_insert_eq by done. by eexists. }
    pose proof (count_insert done_truthy ts i d (toggled t v d) Hi) as Hc.
    assert (done_truthy d = truthy v) as Hd
      by (unfold done_truthy; by rewrite Hv).
    assert (done_truthy (toggled t v d) = negb (truthy v)) as Hd'.
    { unfold done_truthy, toggled.
      by rewrite lookup_insert_ne, lookup_insert_eq by done. }
    rewrite Hd, Hd' in Hc. rewrite length_insert.
    destruct (truthy v); simpl in Hc; do 2 f_equal; [f_equal| |f_equal|]; lia.
  - intros task_id text priority ts' E.
    apply edit_Ok in E as [[-> _]|(i & d & (Hi & _) & ->)];
      [by apply statistics_eq|].
    rewrite statistics_eq.
    2:{ apply (has_key_insert _ _ _ d); [done|]. rewrite edited_lookup by done.
        apply forallb_has_key in Hk. by eapply (Forall_lookup_1 _ _ _ _ Hk). }
    pose proof (count_insert done_truthy ts i d
                  (edited text priority d) Hi) as Hc.
    assert (done_truthy (edited text priority d) = done_truthy d) as Hd
      by (unfold done_truthy; by rewrite edited_lookup).
    rewrite Hd in Hc. rewrite length_insert.
    do 2 f_equal; [f_equal|]; lia.
Qed.

(** ** The ids that load_tasks assigns *)

Lemma id_keys_cons (d : task) ts :
  id_keys (d :: ts) =
  match d !! "id" with
  | Some x => canon x :: id_keys ts
  | None => id_keys ts
  end.
Proof. unfold id_keys. simpl. by destruct (d !! "id"). Qed.

Lemma backfill_task_id now c (d : task) :
  (backfill_task now c d).1 !! "id" =
  Some (match d !! "id" with
        | Some x => x
        | None => VNum (timestamp (now c))
        end).
Proof.
  rewrite backfill_task_lookup. destruct (d !! "id"); [done|].
  unfold default_of. by case_decide.
Qed.

Lemma backfill_task_counter now c (d : task) :
  (match d !! "id" with Some _ => c | None => S c end
   ≤ (backfill_task now c d).2)%nat.
Proof.
  unfold backfill_task. cbn [snd].
  destruct (d !! "id"), (d !! "created_at"); lia.
Qed.

Lemma backfill_tasks_ids now ts : ∀ c x,
  x ∈ id_keys (backfill_tasks now c ts) →
  x ∈ id_keys ts ∨ ∃ k, (c ≤ k)%nat ∧ x = VNum (timestamp (now k)).
Proof.
  induction ts as [|d ts IH]; intros c x Hx; [by left|].
  cbn [backfill_tasks] in Hx. rewrite id_keys_cons, backfill_task_id in Hx.
  pose proof (backfill_task_counter now c d) as Hc.
  rewrite id_keys_cons. apply elem_of_cons in Hx as [->|Hx].
  - destruct (d !! "id"); [left; by left|]. right. by exists c.
  - destruct (IH _ x Hx) as [Hin|(k & Hk & ->)].
    + left. destruct (d !! "id"); [by right|done].
    + right. exists k. split; [|done]. destruct (d !! "id"); lia.
Qed.

Lemma backfill_task_reads now c (d : task) :
  (backfill_task now c d).2 = (c + reads_of d)%nat.
Proof.
  unfold backfill_task, reads_of. cbn [snd].
  destruct (d !! "id"), (d !! "created_at"); lia.
Qed.

(** The record at position [i] is back-filled after [readings ts i] clock
    readings. *)
Lemma backfill_tasks_readings now ts : ∀ c i d,
  ts !! i = Some d →
  backfill_tasks now c ts !! i =
  Some (backfill_task now (c + readings ts i) d).1.
Proof.
  induction ts as [|x ts IH]; intros c i d Hi; [done|].
  destruct i as [|i]; cbn [backfill_tasks readings].
  - injection Hi as ->. by rewrite Nat.add_0_r.
  - cbn [lookup list_lookup] in Hi |- *. rewrite (IH _ i d Hi).
    by rewrite backfill_task_reads, Nat.add_assoc.
Qed.

Lemma readings_lt ts : ∀ i j d,
  (i < j)%nat → ts !! i = Some d → d !! "id" = None →
  (readings ts i < readings ts j)%nat.
Proof.
  induction ts as [|x ts IH]; intros i j d Hij Hi Hd; [done|].
  destruct j as [|j]; [lia|]. destruct i as [|i]; cbn [readings].
  - injection Hi as ->. unfold reads_of. rewrite Hd.
    destruct (d !! "created_at"); lia.
  - cbn [lookup list_lookup] in Hi.
    assert (readings ts i < readings ts j)%nat
      by (apply (IH i j d); [lia|done|done]). lia.
Qed.

(** X17: [load_tasks] returns as many records as the file holds; a record
    keeps the id it has in the file, and a record without id gets the time
    stamp of the clock reading that is made when the loop is at it, which
    is a later reading than that of every record in front of it. So when
    the ids of the file are pairwise distinct, no clock reading has one of
    them as time stamp and the clock does not show one time stamp twice,
    the ids of the loaded records are pairwise distinct. *)
Theorem load_tasks_assigns_ids (now : nat → instant) (ts : list task) :
  ∃ ts' : list task,
    load_tasks now (Document (json_of_tasks ts)) = Ok (json_of_tasks ts') ∧
    length ts' = length ts ∧
    (∀ i d, ts !! i = Some d →
       field ts' i "id" =
       Some (match d !! "id" with
             | Some x => x
             | None => VNum (timestamp (now (readings ts i)))
             end)) ∧
    (∀ i j d, (i < j)%nat → ts !! i = Some d → d !! "id" = None →
       (readings ts i < readings ts j)%nat) ∧
    ((∀ c c', timestamp (now c) = timestamp (now c') → c = c') →
     (∀ c, VNum (timestamp (now c)) ∉ id_keys ts) →
     unique_ids ts →
     unique_ids ts' ∧
     ∀ x, x ∈ id_keys ts' →
          x ∈ id_keys ts ∨ ∃ k, x = VNum (timestamp (now k))).
Proof.
  exists (backfill_tasks now 0 ts).
  split; [apply load_tasks_objs|].
  split; [apply backfill_tasks_length|].
  split.
  { intros i d Hi. unfold field.
    rewrite (backfill_tasks_readings now ts 0%nat i d Hi).
    cbn [mbind option_bind]. by rewrite backfill_task_id. }
  split; [apply readings_lt|].
  intros Hinj Hclock Hu. split.
  - apply unique_ids_NoDup. apply unique_ids_NoDup in Hu.
    generalize 0%nat as c. revert Hclock Hu.
    induction ts as [|d ts IH]; intros Hclock Hu c; [constructor|].
    cbn [backfill_tasks]. rewrite id_keys_cons, backfill_task_id.
    rewrite id_keys_cons in Hu, Hclock.
    pose proof (backfill_task_counter now c d) as Hc.
    destruct (d !! "id") as [x|].
    + apply NoDup_cons in Hu as [Hx Hu]. apply NoDup_cons. split.
      * intros [Hin|(k & _ & Hk)]%backfill_tasks_ids; [done|].
        apply (Hclock k). rewrite <- Hk. by left.
      * apply IH; [|done]. intros k Hk. apply (Hclock k). by right.
    + apply NoDup_cons. split; [|by apply IH].
      intros [Hin|(k & Hk & E)]%backfill_tasks_ids; [by apply (Hclock c)|].
      injection E as E. apply Hinj in E. lia.
  - intros x [?|(k & _ & ->)]%backfill_tasks_ids; [by left|right; by exists k].
Qed.

(** ** The properties at work on two tasks *)

Lemma first_match_rent :
  first_match (VNum 1704067200000002) [task_milk; task_rent] 1 task_rent.
Proof.
  split; [reflexivity|]. split; [vm_compute; reflexivity|].
  intros j y Hj Hy. destruct j as [|j]; [|lia].
  injection Hy as <-. split; [by eexists | vm_compute; reflexivity].
Qed.

Lemma sortable_milk_rent :
  Forall (fun d => sortable d = true) [task_rent; task_milk].
Proof. repeat constructor. Qed.

Lemma complete_milk_rent :
  Forall (fun d => complete d = true) [task_milk; task_rent].
Proof. repeat constructor. Qed.

Lemma toggle_task_effect_witness :
  first_match (VNum 1704067200000002)
    (tasks {| tasks := [task_milk; task_rent]; disk := Absent |}) 1
    task_rent ∧
  match task_rent !! "done" with
  | Some v =>
      ∃ d', toggle_task_completion Written (clock0 6)
              (VNum 1704067200000002)
              {| tasks := [task_milk; task_rent]; disk := Absent |} =
              Ok (saved Written
                    (<[1%nat := d']>
                       (tasks {| tasks := [task_milk; task_rent];
                                 disk := Absent |}))) ∧
        d' !! "done" = Some (VBool (negb (truthy v))) ∧
        d' !! "completed_at" =
          Some (if truthy v then VNone else VStr (isoformat (clock0 6))) ∧
        is_done d' = negb (truthy v) ∧
        consistent d' = true
  | None =>
      toggle_task_completion Written (clock0 6) (VNum 1704067200000002)
        {| tasks := [task_milk; task_rent]; disk := Absent |} =
        Raise (KeyError "done") ∧
      step (Toggle (clock0 6) (VNum 1704067200000002)) Written
        {| tasks := [task_milk; task_rent]; disk := Absent |} =
      {| tasks := [task_milk; task_rent]; disk := Absent |}
  end.
Proof.
  split; [exact first_match_rent|].
  exact (toggle_task_effect Written (clock0 6) (VNum 1704067200000002)
           {| tasks := [task_milk; task_rent]; disk := Absent |} 1 task_rent
           first_match_rent).
Defined.

Lemma edit_task_effect_witness :
  first_match (VNum 1704067200000002)
    (tasks {| tasks := [task_milk; task_rent]; disk := Absent |}) 1
    task_rent ∧
  ∃ d', edit_task Written (VNum 1704067200000002) "Pay the rent" "High"
          {| tasks := [task_milk; task_rent]; disk := Absent |} =
          Ok (saved Written
                (<[1%nat := d']>
                   (tasks {| tasks := [task_milk; task_rent];
                             disk := Absent |}))) ∧
    d' !! "task" = Some (VStr "Pay the rent") ∧
    d' !! "priority" = Some (VStr "High") ∧
    ∀ w' text' priority',
      edit_task w' (VNum 1704067200000002) text' priority'
        (saved Written
           (<[1%nat := d']>
              (tasks {| tasks := [task_milk; task_rent]; disk := Absent |}))) =
      edit_task w' (VNum 1704067200000002) text' priority'
        {| tasks := [task_milk; task_rent]; disk := Absent |}.
Proof.
  split; [exact first_match_rent|].
  exact (edit_task_effect Written (VNum 1704067200000002) "Pay the rent"
           "High" {| tasks := [task_milk; task_rent]; disk := Absent |} 1
           task_rent first_match_rent).
Defined.


Lemma sort_tasks_idempotent_witness :
  Forall (fun d => sortable d = true) [task_rent; task_milk] ∧
  if bool_decide ("Alphabetical" ∈ ["Priority"; "Created Date"; "Alphabetical"])
  then ∃ out,
    @sort_tasks ascii_lower [task_rent; task_milk] "Alphabetical" = Ok out ∧
    @sort_tasks ascii_lower out "Alphabetical" = Ok out
  else @sort_tasks ascii_lower [task_rent; task_milk] "Alphabetical" =
       Ok [task_rent; task_milk].
Proof.
  split; [exact sortable_milk_rent|].
  exact (@sort_tasks_idempotent ascii_lower [task_rent; task_milk]
           "Alphabetical" sortable_milk_rent).
Defined.

Lemma complete_records_kept_witness :
  Forall (fun aw : action * write => imports_complete aw.1)
    [(Toggle (clock0 6) (VNum 1704067200000000), Written);
     (ImportBatch [task_rent], WriteFailed Malformed)] ∧
  Forall (fun d => complete d = true)
    (tasks {| tasks := [task_milk]; disk := Absent |}) ∧
  let s' := run [(Toggle (clock0 6) (VNum 1704067200000000), Written);
                 (ImportBatch [task_rent], WriteFailed Malformed)]
              {| tasks := [task_milk]; disk := Absent |} in
  Forall (fun d => complete d = true) (tasks s') ∧
  (∀ w t task_id, ∃ s'', toggle_task_completion w t task_id s' = Ok s'') ∧
  (∀ w task_id text priority,
     ∃ s'', edit_task w task_id text priority s' = Ok s'') ∧
  (∀ w task_id, ∃ s'', delete_task w task_id s' = Ok s'') ∧
  (∀ w, ∃ s'', clear_handler w s' = Ok s'').
Proof.
  assert (Forall (fun aw : action * write => imports_complete aw.1)
    [(Toggle (clock0 6) (VNum 1704067200000000), Written);
     (ImportBatch [task_rent], WriteFailed Malformed)]) as Hacts.
  { repeat constructor. }
  assert (Forall (fun d => complete d = true)
    (tasks {| tasks := [task_milk]; disk := Absent |})) as Hs.
  { repeat constructor. }
  split; [exact Hacts|]. split; [exact Hs|].
  exact (complete_records_kept _ {| tasks := [task_milk]; disk := Absent |}
           Hacts Hs).
Defined.

Lemma restart_restores_witness :
  Forall (fun aw : action * write => imports_complete aw.1 ∧ aw.2 = Written)
    [(Add (clock0 0) (clock0 1) " Buy milk " "High", Written);
     (Toggle (clock0 2) (VNum 1704067200000000), Written)] ∧
  Forall (fun d => complete d = true)
    (tasks {| tasks := []; disk := Absent |}) ∧
  start clock0 (disk {| tasks := []; disk := Absent |}) =
    Some {| tasks := []; disk := Absent |} ∧
  start clock0
    (disk (run [(Add (clock0 0) (clock0 1) " Buy milk " "High", Written);
                (Toggle (clock0 2) (VNum 1704067200000000), Written)]
             {| tasks := []; disk := Absent |})) =
  Some (run [(Add (clock0 0) (clock0 1) " Buy milk " "High", Written);
             (Toggle (clock0 2) (VNum 1704067200000000), Written)]
          {| tasks := []; disk := Absent |}).
Proof.
  assert (Forall (fun aw : action * write =>
                    imports_complete aw.1 ∧ aw.2 = Written)
    [(Add (clock0 0) (clock0 1) " Buy milk " "High", Written);
     (Toggle (clock0 2) (VNum 1704067200000000), Written)]) as Hacts.
  { repeat constructor. }
  assert (Forall (fun d => complete d = true)
    (tasks {| tasks := []; disk := Absent |})) as Hs by constructor.
  split; [exact Hacts|]. split; [exact Hs|]. split; [reflexivity|].
  exact (restart_restores clock0 _ {| tasks := []; disk := Absent |}
           Hacts Hs eq_refl).
Defined.

Lemma delete_task_removes_one_witness :
  unique_ids (tasks {| tasks := [task_milk; task_rent]; disk := Absent |}) ∧
  forallb (has_key "id")
    (tasks {| tasks := [task_milk; task_rent]; disk := Absent |}) = true ∧
  first_match (VNum 1704067200000002)
    (tasks {| tasks := [task_milk; task_rent]; disk := Absent |}) 1
    task_rent ∧
  delete_task Written (VNum 1704067200000002)
    {| tasks := [task_milk; task_rent]; disk := Absent |} =
    Ok (saved Written
          (take 1 (tasks {| tasks := [task_milk; task_rent]; disk := Absent |})
           ++ drop 2
                (tasks {| tasks := [task_milk; task_rent];
                          disk := Absent |}))) ∧
  S (length (tasks (step (Delete (VNum 1704067200000002)) Written
                      {| tasks := [task_milk; task_rent];
                         disk := Absent |}))) =
  length (tasks {| tasks := [task_milk; task_rent]; disk := Absent |}).
Proof.
  assert (unique_ids
            (tasks {| tasks := [task_milk; task_rent]; disk := Absent |}))
    as Hu.
  { apply unique_ids_NoDup. apply (bool_decide_unpack _). vm_compute. done. }
  assert (forallb (has_key "id")
            (tasks {| tasks := [task_milk; task_rent]; disk := Absent |}) =
          true) as Hk by (vm_compute; reflexivity).
  split; [exact Hu|]. split; [exact Hk|]. split; [exact first_match_rent|].
  exact (delete_task_removes_one Written (VNum 1704067200000002)
           {| tasks := [task_milk; task_rent]; disk := Absent |} 1 task_rent
           Hu Hk first_match_rent).
Defined.

Lemma statistics_follow_witness :
  statistics [task_milk; task_rent] = Ok (2, 1, 1) ∧
  (∀ t_id t_created text priority,
     all_space text = false →
     statistics (add t_id t_created text priority [task_milk; task_rent]) =
     Ok (2 + 1, 1 + 1, 1)) ∧
  (∀ t task_id i d v,
     first_match task_id [task_milk; task_rent] i d → d !! "done" = Some v →
     ∃ ts', toggle t task_id [task_milk; task_rent] = Ok ts' ∧
       statistics ts' =
       Ok (2, if truthy v then 1 + 1 else 1 - 1,
           if truthy v then 1 - 1 else 1 + 1)) ∧
  (∀ task_id text priority ts',
     edit task_id text priority [task_milk; task_rent] = Ok ts' →
     statistics ts' = Ok (2, 1, 1)).
Proof.
  assert (statistics [task_milk; task_rent] = Ok (2, 1, 1)) as H
    by (vm_compute; reflexivity).
  split; [exact H|].
  exact (statistics_follow [task_milk; task_rent] 2 1 1 H).
Defined.

Lemma id_keys_bare : id_keys [task_bare; task_bare] = [].
Proof. vm_compute. reflexivity. Qed.

Lemma clock0_timestamps c c' :
  timestamp (clock0 c) = timestamp (clock0 c') → c = c'.
Proof. unfold clock0. cbn [timestamp]. lia. Qed.

Lemma load_tasks_assigns_ids_witness :
  (∀ c c', timestamp (clock0 c) = timestamp (clock0 c') → c = c') ∧
  (∀ c, VNum (timestamp (clock0 c)) ∉ id_keys [task_bare; task_bare]) ∧
  unique_ids [task_bare; task_bare] ∧
  ∃ ts' : list task,
    load_tasks clock0 (Document (json_of_tasks [task_bare; task_bare])) =
      Ok (json_of_tasks ts') ∧
    field ts' 0 "id" = Some (VNum (timestamp (clock0 0))) ∧
    field ts' 1 "id" = Some (VNum (timestamp (clock0 2))) ∧
    unique_ids ts'.
Proof.
  assert (∀ c, VNum (timestamp (clock0 c)) ∉ id_keys [task_bare; task_bare])
    as Hclock by (intros c; rewrite id_keys_bare; apply not_elem_of_nil).
  assert (unique_ids [task_bare; task_bare]) as Hu.
  { apply unique_ids_NoDup. rewrite id_keys_bare. constructor. }
  split; [exact clock0_timestamps|]. split; [exact Hclock|]. split; [exact Hu|].
  destruct (load_tasks_assigns_ids clock0 [task_bare; task_bare])
    as (ts' & E & _ & Hid & _ & Hun).
  exists ts'. split; [exact E|].
  split; [exact (Hid 0%nat task_bare eq_refl)|].
  split; [exact (Hid 1%nat task_bare eq_refl)|].
  exact (proj1 (Hun clock0_timestamps Hclock Hu)).
Defined.
